(** * cmpy.core.basis: Fock-space basis of a spin-1/2 lattice model

    Shallow embedding of [cmpy/core/basis.py].  Python integers are
    modelled as [Z] (unbounded, two's complement bit operations, floor
    division), Python lists as [list], [None]-or-int values as [option Z],
    the insertion-ordered [defaultdict(list)] as an association list, and
    raised exceptions as the [Raise] constructor of [result]. *)

From Stdlib Require Import ZArith List String Ascii Bool Lia Permutation Sorted.
Import ListNotations.
Open Scope Z_scope.

Set Implicit Arguments.

(** ** Exceptions and results *)

Inductive exn : Type :=
| TypeError
| ValueError
| IndexError
| ZeroDivisionError.

Inductive result (A : Type) : Type :=
| Ok (a : A)
| Raise (e : exn).

Arguments Ok {A} a.
Arguments Raise {A} e.

Definition bind {A B : Type} (r : result A) (k : A -> result B) : result B :=
  match r with
  | Ok a => k a
  | Raise e => Raise e
  end.

Notation "x <- r ;; k" := (bind r (fun x => k))
  (at level 61, r at next level, right associativity).

(** ** Python primitives used by the module *)

(** Truth value of an int: [if x] holds exactly for non-zero [x]. *)
Definition truthy (x : Z) : bool := negb (x =? 0).

(** [a << pos]; a negative shift count raises [ValueError]. *)
Definition lshift (a pos : Z) : result Z :=
  if pos <? 0 then Raise ValueError else Ok (Z.shiftl a pos).

(** Binary digits of a positive number, most significant first. *)
Fixpoint bin_digits (p : positive) : string :=
  match p with
  | xH => "1"
  | xO q => (bin_digits q ++ "0")%string
  | xI q => (bin_digits q ++ "1")%string
  end.

(** [bin(z)]: ["0b..."], with a leading minus sign for negative numbers. *)
Definition bin (z : Z) : string :=
  match z with
  | Z0 => "0b0"
  | Zpos p => ("0b" ++ bin_digits p)%string
  | Zneg p => ("-0b" ++ bin_digits p)%string
  end.

(** [s.count(c)] for a needle [c] of length one (the module only ever
    counts ["1"]): the number of characters of [s] equal to [c]. *)
Fixpoint count (c : ascii) (s : string) : Z :=
  match s with
  | EmptyString => 0
  | String a r => (if Ascii.eqb a c then 1 else 0) + count c r
  end.

(** [c * n] for a one-character string [c]; empty when [n <= 0]. *)
Definition str_repeat (c : ascii) (n : Z) : string :=
  string_of_list_ascii (repeat c (Z.to_nat n)).

(** [int(s, base=2)] on strings of binary digits.  The empty string is
    not a literal and raises [ValueError], as does any character other
    than 0 and 1 (signs, blanks, prefixes and underscores never occur in
    the strings the module builds, which are repetitions of "1"). *)
Fixpoint int2_digits (acc : Z) (s : string) : result Z :=
  match s with
  | EmptyString => Ok acc
  | String "0" r => int2_digits (2 * acc) r
  | String "1" r => int2_digits (2 * acc + 1) r
  | String _ _ => Raise ValueError
  end.

Definition int2 (s : string) : result Z :=
  match s with
  | EmptyString => Raise ValueError
  | _ => int2_digits 0 s
  end.

(** [list(range(n))]. *)
Definition range (n : Z) : list Z := map Z.of_nat (seq 0 (Z.to_nat n)).

(** [l[i]] with Python's rules: a negative index counts from the end,
    an index outside [-len, len) raises [IndexError]. *)
Definition getitem {A : Type} (l : list A) (i : Z) : result A :=
  let n := Z.of_nat (List.length l) in
  let j := if i <? 0 then i + n else i in
  if (j <? 0) || (n <=? j) then Raise IndexError
  else match nth_error l (Z.to_nat j) with
       | Some a => Ok a
       | None => Raise IndexError
       end.

(** [a // b] and [a % b]: floor division, [ZeroDivisionError] on [b = 0]. *)
Definition floordiv (a b : Z) : result Z :=
  if b =? 0 then Raise ZeroDivisionError else Ok (a / b).

Definition pymod (a b : Z) : result Z :=
  if b =? 0 then Raise ZeroDivisionError else Ok (a mod b).

(** [itertools.product(xs, ys)]: the rightmost iterable advances fastest. *)
Definition product {A B : Type} (xs : list A) (ys : list B) : list (A * B) :=
  flat_map (fun x => map (fun y => (x, y)) ys) xs.

(** [itertools.product(xs, repeat=r)]: tuples of length [r] as lists, the
    first component advancing slowest. *)
Fixpoint product_repeat {A : Type} (xs : list A) (r : nat) : list (list A) :=
  match r with
  | O => [[]]
  | S r' => flat_map (fun x => map (cons x) (product_repeat xs r')) xs
  end.

(** ** Module-level constants and globals *)

Definition UP : Z := 1.
Definition DN : Z := -1.

(** The process-wide default digit width, rebound by [create_spinstates]. *)
Record globals : Type := { BITS : Z }.

Definition set_global_bitnum (bits : Z) (g : globals) : globals :=
  {| BITS := bits |}.

(** The module starts with [BITS = 4]. *)
Definition initial_globals : globals := {| BITS := 4 |}.

(** ** Creation and annihilation on integer-coded states *)

Definition create (num pos : Z) : result (option Z) :=
  op <- lshift 1 pos ;;
  if negb (truthy (Z.land op num)) then Ok (Some (Z.lxor num op))
  else Ok None.

Definition annihilate (num pos : Z) : result (option Z) :=
  op <- lshift 1 pos ;;
  if truthy (Z.land op num) then Ok (Some (Z.lxor num op))
  else Ok None.

(** ** SpinState: an int subclass; the value is all that is modelled *)

Module SpinState.

(** [SpinState(x)] goes through [int.__new__]: an int keeps its value,
    [None] is rejected with [TypeError]. *)
Definition new (x : option Z) : result Z :=
  match x with
  | Some z => Ok z
  | None => Raise TypeError
  end.

(** Property [n]: [bin(self).count("1")]. *)
Definition n (self : Z) : Z := count "1" (bin self).

(** [occ(pos)]: [self & (1 << pos)]. *)
Definition occ (self pos : Z) : result Z :=
  op <- lshift 1 pos ;; Ok (Z.land self op).

(** Methods [create] and [annihilate]: [self.__class__(create(self, pos))]. *)
Definition create (self pos : Z) : result Z :=
  r <- create self pos ;; new r.

Definition annihilate (self pos : Z) : result Z :=
  r <- annihilate self pos ;; new r.

End SpinState.

(** [create_spinstates(num_sites)]: rebinds the global [BITS], then lists
    [SpinState(num)] for [num] in [range(max_int + 1)]. *)
Fixpoint mapM {A B : Type} (f : A -> result B) (l : list A) : result (list B) :=
  match l with
  | [] => Ok []
  | a :: r => b <- f a ;; bs <- mapM f r ;; Ok (b :: bs)
  end.

Definition create_spinstates (num_sites : Z) (g : globals)
  : globals * result (list Z) :=
  let g' := {| BITS := num_sites |} in
  (g', max_int <- int2 (str_repeat "1" num_sites) ;;
       mapM (fun num => SpinState.new (Some num)) (range (max_int + 1))).

(** ** Rendering of states *)

(** Glyphs.  A Python [str] holding arrows is kept as its UTF-8 bytes;
    labels are only ever concatenated, never indexed or measured. *)
Definition EMPTY : string := ".".
Definition UP_CHAR : string := "↑".
Definition DN_CHAR : string := "↓".
Definition UD_CHAR : string := "⇅".

Definition SPIN_CHARS : list (Z * string) :=
  [(0, EMPTY); (UP, UP_CHAR); (DN, DN_CHAR); (2, UD_CHAR)].

(** [d[k]] on a dict literal; [None] stands for the [KeyError] of a
    missing key. *)
Fixpoint lookup_char (k : Z) (d : list (Z * string)) : option string :=
  match d with
  | [] => None
  | (k', c) :: r => if k' =? k then Some c else lookup_char k r
  end.

Fixpoint traverse_opt {A B : Type} (f : A -> option B) (l : list A)
  : option (list B) :=
  match l with
  | [] => Some []
  | a :: r =>
      match f a, traverse_opt f r with
      | Some b, Some bs => Some (b :: bs)
      | _, _ => None
      end
  end.

(** [s[n:]] and [s[::-1]]. *)
Fixpoint str_drop (n : nat) (s : string) : string :=
  match n, s with
  | O, _ => s
  | S _, EmptyString => EmptyString
  | S n', String _ r => str_drop n' r
  end.

Definition str_rev (s : string) : string :=
  string_of_list_ascii (rev (list_ascii_of_string s)).

(** Binary digits of the magnitude of an int, ["0"] for zero. *)
Definition bin_abs (z : Z) : string :=
  match z with
  | Z0 => "0"
  | Zpos p => bin_digits p
  | Zneg p => bin_digits p
  end.

(** The f-string [f"{num:0{fill}b}"]: binary digits padded with zeros to
    width [fill], the minus sign of a negative number counted in the width
    and put before the zeros.  A negative [fill] makes the format
    specifier ["0-1b"]-like and raises [ValueError]. *)
Definition format_0b (num fill : Z) : result string :=
  if fill <? 0 then Raise ValueError
  else
    let ds := bin_abs num in
    let len := Z.of_nat (String.length ds) in
    if num <? 0
    then Ok ("-" ++ str_repeat "0" (fill - 1 - len) ++ ds)%string
    else Ok (str_repeat "0" (fill - len) ++ ds)%string.

(** [binstr(num, digits)]; [__BITORDER__] is [-1], so the slice
    [[::__BITORDER__]] reverses. *)
Definition binstr (num : Z) (digits : option Z) (g : globals) : result string :=
  let fill := match digits with
              | Some d => d
              | None => BITS g
              end in
  s <- format_0b num fill ;; Ok (str_rev s).

(** The [bra]/[ket] decoration shared by the two label functions. *)
Definition decorate (label : string) (bra ket : bool) : string :=
  if bra then ("⟨" ++ label ++ "|")%string
  else if ket then ("|" ++ label ++ "⟩")%string
       else label.

(** [spinstate_label]; the slice [[::-__BITORDER__]] is [[::1]] and keeps
    the order, site 0 first. *)
Definition spinstate_label (spinstate sigma : Z) (digits : option Z)
           (bra ket : bool) (g : globals) : string :=
  let spinchar := if sigma =? UP then UP_CHAR else DN_CHAR in
  let digits := match digits with
                | Some d => d
                | None => BITS g
                end in
  let min_digits := Z.of_nat (String.length (str_drop 2 (bin spinstate))) in
  let num_chars := Z.max min_digits digits in
  let chars :=
    map (fun i => if truthy (Z.land (Z.shiftr spinstate i) 1)
                  then spinchar else EMPTY)
        (range num_chars) in
  decorate (String.concat "" chars) bra ket.

Definition state_label (up_num dn_num : Z) (digits : option Z)
           (bra ket : bool) (g : globals) : option string :=
  let digits := match digits with
                | Some d => d
                | None => BITS g
                end in
  let min_digits :=
    Z.max (Z.of_nat (String.length (str_drop 2 (bin up_num))))
          (Z.of_nat (String.length (str_drop 2 (bin dn_num)))) in
  let num_chars := Z.max min_digits digits in
  match traverse_opt
          (fun i =>
             let u := Z.land (Z.shiftr up_num i) 1 in
             let d := Z.land (Z.shiftr dn_num i) 1 in
             if truthy u && negb (truthy d) then Some UP_CHAR
             else if negb (truthy u) && truthy d then Some DN_CHAR
                  else lookup_char (u + d) SPIN_CHARS)
          (range num_chars) with
  | Some chars => Some (decorate (String.concat "" chars) bra ket)
  | None => None
  end.

(** ** Composite states *)

Module State.

Record t : Type := mk { up : Z; dn : Z }.

End State.

(** ** The insertion-ordered [defaultdict(list)] keyed by filling *)

Definition dict : Type := list (Z * list Z).

(** [d[k].append(v)]: a missing key is first bound to a fresh empty list,
    placed after the keys already present. *)
Fixpoint dict_append (d : dict) (k v : Z) : dict :=
  match d with
  | [] => [(k, [v])]
  | (k', l) :: r =>
      if k' =? k then (k', l ++ [v]) :: r else (k', l) :: dict_append r k v
  end.

Fixpoint dict_lookup (d : dict) (k : Z) : option (list Z) :=
  match d with
  | [] => None
  | (k', l) :: r => if k' =? k then Some l else dict_lookup r k
  end.

(** [d.get(k, default)]; unlike [d[k]] it never inserts.  The key [None]
    is never bound: every key comes from a population count. *)
Definition dict_get (d : dict) (k : option Z) (default : list Z) : list Z :=
  match k with
  | None => default
  | Some z => match dict_lookup d z with
              | Some l => l
              | None => default
              end
  end.

Definition keys (d : dict) : list Z := map fst d.

(** [v in l] for a list of ints; [None] equals no int. *)
Definition contains (l : list Z) (v : option Z) : bool :=
  match v with
  | Some z => existsb (Z.eqb z) l
  | None => false
  end.

(** [v += delta]; [None] has no addition and raises [TypeError]. *)
Definition iadd (v : option Z) (delta : Z) : result (option Z) :=
  match v with
  | Some z => Ok (Some (z + delta))
  | None => Raise TypeError
  end.

(** ** Containers *)

Module SpinSector.

Record t : Type := mk
  { num_sites : Z; n : option Z; sigma : Z; spinstates : list Z }.

Definition states (self : t) : list Z := spinstates self.

Definition size (self : t) : Z := Z.of_nat (List.length (spinstates self)).

(** [bra] and [ket] both default to [False] here. *)
Definition get_label (self : t) (state : Z) (bra ket : bool) (g : globals)
  : string :=
  spinstate_label state (sigma self) (Some (num_sites self)) bra ket g.

End SpinSector.

Module BasisSector.

Record t : Type := mk
  { num_sites : Z;
    n_up : option Z;
    n_dn : option Z;
    up_states : list Z;
    dn_states : list Z }.

(** The generator [states], unfolded into the list of what it yields. *)
Definition states (self : t) : list State.t :=
  map (fun p => State.mk (fst p) (snd p))
      (product (up_states self) (dn_states self)).

Definition size (self : t) : Z :=
  Z.of_nat (List.length (up_states self))
  * Z.of_nat (List.length (dn_states self)).

Definition num_up_states (self : t) : Z :=
  Z.of_nat (List.length (up_states self)).

Definition num_dn_states (self : t) : Z :=
  Z.of_nat (List.length (dn_states self)).

Definition filling (self : t) : option Z * option Z := (n_up self, n_dn self).

Definition get_state_index (self : t) (idx_up idx_dn : Z) : Z :=
  idx_up * size self + idx_dn.

Definition get_spin_states (self : t) (state_idx : Z) : result (Z * Z) :=
  idx_up <- floordiv state_idx (size self) ;;
  idx_dn <- pymod state_idx (size self) ;;
  u <- getitem (up_states self) idx_up ;;
  d <- getitem (dn_states self) idx_dn ;;
  Ok (u, d).

Definition get_label (self : t) (state : State.t) (bra ket : bool) (g : globals)
  : option string :=
  state_label (State.up state) (State.dn state) (Some (num_sites self)) bra ket g.

End BasisSector.

Module FockBasis.

(** [_sectors] holds the class [defaultdict] itself until [init_basis]
    replaces it by an instance. *)
Inductive sectors : Type :=
| DefaultdictClass
| Defaultdict (d : dict).

Record t : Type := mk
  { num_sites : Z;
    _size : Z;
    _spinstates : list Z;
    _sectors : sectors;
    _fillings : list Z }.

(** [init_basis] mutates [self]: the result is the globals, the object
    after the call and the outcome.  [create_spinstates] runs before any
    attribute is assigned, so a raise leaves the object as it was. *)
Definition init_basis (self : t) (num_sites : Z) (g : globals)
  : globals * t * result unit :=
  match create_spinstates num_sites g with
  | (g', Raise e) => (g', self, Raise e)
  | (g', Ok spinstates) =>
      let sectors :=
        fold_left (fun d state => dict_append d (SpinState.n state) state)
                  spinstates [] in
      let num_spinstates := Z.of_nat (List.length spinstates) in
      (g',
       {| num_sites := num_sites;
          _size := num_spinstates * num_spinstates;
          _spinstates := spinstates;
          _sectors := Defaultdict sectors;
          _fillings := keys sectors |},
       Ok tt)
  end.

(** [FockBasis(num_sites)]; the default argument is [0]. *)
Definition init (num_sites : Z) (g : globals) : globals * result t :=
  let self :=
    {| num_sites := num_sites;
       _size := 0;
       _spinstates := [];
       _sectors := DefaultdictClass;
       _fillings := [] |} in
  if truthy num_sites then
    match init_basis self num_sites g with
    | (g', self', Ok _) => (g', Ok self')
    | (g', _, Raise e) => (g', Raise e)
    end
  else (g, Ok self).

Definition fillings (self : t) : list Z := _fillings self.

Definition states (self : t) : list State.t :=
  map (fun p => State.mk (fst p) (snd p))
      (product (_spinstates self) (_spinstates self)).

Definition size (self : t) : Z := _size self.

Definition state_index (self : t) (idx_up idx_dn : Z) : Z :=
  idx_up * size self + idx_dn.

(** [self._sectors.get(n, self._spinstates)].  On the class, [get] is the
    unbound descriptor of [dict] and its first argument [n] is not a dict:
    [TypeError]. *)
Definition get_spinstates (self : t) (n : option Z) : result (list Z) :=
  match _sectors self with
  | DefaultdictClass => Raise TypeError
  | Defaultdict d => Ok (dict_get d n (_spinstates self))
  end.

Definition get_spin_sector (self : t) (n : option Z) (sigma : Z)
  : result SpinSector.t :=
  states <- get_spinstates self n ;;
  Ok (SpinSector.mk (num_sites self) n sigma states).

Definition get_sector (self : t) (n_up n_dn : option Z)
           (sector : option BasisSector.t) : result BasisSector.t :=
  match n_up, n_dn, sector with
  | None, None, Some s => Ok s
  | _, _, _ =>
      up_states <- get_spinstates self n_up ;;
      dn_states <- get_spinstates self n_dn ;;
      Ok (BasisSector.mk (num_sites self) n_up n_dn up_states dn_states)
  end.

(** [sigma] defaults to [UP] and [delta] to [1] at the call sites. *)
Definition get_next_sector (self : t) (n_up n_dn : option Z)
           (sector : option BasisSector.t) (sigma delta : Z)
  : result (option BasisSector.t) :=
  let '(n_up, n_dn) :=
    match sector with
    | Some s => BasisSector.filling s
    | None => (n_up, n_dn)
    end in
  p <- (if sigma =? UP
        then (u <- iadd n_up delta ;; Ok (u, n_dn))
        else (d <- iadd n_dn delta ;; Ok (n_up, d))) ;;
  let '(n_up, n_dn) := p in
  if negb (contains (fillings self) n_up) || negb (contains (fillings self) n_dn)
  then Ok None
  else s <- get_sector self n_up n_dn None ;; Ok (Some s).

(** [product(self._fillings, repeat=repeat)]; a negative [repeat] raises
    [ValueError]. *)
Definition iter_fillings (self : t) (repeat : Z) : result (list (list Z)) :=
  if repeat <? 0 then Raise ValueError
  else Ok (product_repeat (_fillings self) (Z.to_nat repeat)).

(** The generator [iter_sectors], run to its end: the list of the sectors
    it yields, or the exception that stops it. *)
Definition iter_sectors (self : t) : result (list BasisSector.t) :=
  pairs <- iter_fillings self 2 ;;
  mapM (fun pair =>
          match pair with
          | [n_up; n_dn] => get_sector self (Some n_up) (Some n_dn) None
          | _ => Raise ValueError
          end) pairs.

End FockBasis.

(** ** Binary: the int subclass under [SpinState] *)

Module Binary.

(** [get(bit)]: [int(self & (1 << bit))]. *)
Definition get (self bit : Z) : result Z :=
  op <- lshift 1 bit ;; Ok (Z.land self op).

(** [flip(bit)]: [self.__class__(self ^ (1 << bit))]. *)
Definition flip (self bit : Z) : result Z :=
  op <- lshift 1 bit ;; Ok (Z.lxor self op).

End Binary.

(** ** Auxiliary definitions for the statements *)

(** The digit character of bit [i] of [z]. *)
Definition bit_char (z i : Z) : ascii :=
  if Z.testbit z i then "1"%char else "0"%char.

(** The glyph of site [i] in a single-species label and in a two-species
    label. *)
Definition spin_glyph (spinstate sigma i : Z) : string :=
  if Z.testbit spinstate i
  then (if sigma =? UP then UP_CHAR else DN_CHAR)
  else EMPTY.

Definition state_glyph (up_num dn_num i : Z) : string :=
  match Z.testbit up_num i, Z.testbit dn_num i with
  | true, false => UP_CHAR
  | false, true => DN_CHAR
  | true, true => UD_CHAR
  | false, false => EMPTY
  end.

(** Sum of a list of integers. *)
Definition sumZ (l : list Z) : Z := fold_right Z.add 0 l.

(** Binomial coefficients by Pascal's rule. *)
Fixpoint binom (n k : nat) : nat :=
  match n, k with
  | _, O => 1
  | O, S _ => 0
  | S n', S k' => binom n' k' + binom n' k
  end.

(** [product] with its pairs consumed by [f], as in
    [for x, y in product(xs, ys): yield f(x, y)]. *)
Definition product_with {A B C : Type} (f : A -> B -> C)
           (xs : list A) (ys : list B) : list C :=
  map (fun p => f (fst p) (snd p)) (product xs ys).

(** The loop [for state in spinstates: sectors[key(state)].append(state)]
    of [init_basis], started from an empty dictionary. *)
Definition group (key : Z -> Z) (l : list Z) : dict :=
  fold_left (fun d state => dict_append d (key state) state) l [].

Definition nonempty (b : list Z) : option (list Z) :=
  match b with
  | [] => None
  | _ => Some b
  end.

(** The object a completed [init_basis(N)] leaves behind. *)
Definition basis_of (N : Z) : FockBasis.t :=
  {| FockBasis.num_sites := N;
     FockBasis._size :=
       Z.of_nat (List.length (range (2 ^ N)))
       * Z.of_nat (List.length (range (2 ^ N)));
     FockBasis._spinstates := range (2 ^ N);
     FockBasis._sectors :=
       FockBasis.Defaultdict (group SpinState.n (range (2 ^ N)));
     FockBasis._fillings := keys (group SpinState.n (range (2 ^ N))) |}.

(** [b] is the state of a basis after some call of [init_basis(N)] that
    returned. *)
Definition initialized (b : FockBasis.t) (N : Z) : Prop :=
  exists self g g', FockBasis.init_basis self N g = (g', b, Ok tt).

(** The states of filling [k] in the enumeration for [N] sites. *)
Definition bucket (N k : Z) : list Z :=
  filter (fun s => SpinState.n s =? k) (range (2 ^ N)).

(** The sector reached from fillings [(n_up, n_dn)] of a basis on [N]
    sites, in terms of the enumeration alone. *)
Definition sector_of (N n_up n_dn : Z) : BasisSector.t :=
  BasisSector.mk N (Some n_up) (Some n_dn) (bucket N n_up) (bucket N n_dn).

(** A filling that the basis does not list: [None], or an int outside the
    catalogue of fillings. *)
Definition not_a_key (b : FockBasis.t) (n : option Z) : Prop :=
  match n with
  | None => True
  | Some k => ~ In k (FockBasis.fillings b)
  end.

(** The object built by [FockBasis()] with the default [num_sites = 0]. *)
Definition fresh_basis : FockBasis.t :=
  {| FockBasis.num_sites := 0;
     FockBasis._size := 0;
     FockBasis._spinstates := [];
     FockBasis._sectors := FockBasis.DefaultdictClass;
     FockBasis._fillings := [] |}.

(** A sector with one up state and two down states. *)
Definition sector_1x2 : BasisSector.t :=
  BasisSector.mk 2 (Some 2) (Some 1) [3] [1; 2].

(** * Properties *)

(** ** Bit-level facts *)

Lemma bind_ok {A B : Type} (r : result A) (k : A -> result B) (b : B) :
  (x <- r ;; k x) = Ok b -> exists a, r = Ok a /\ k a = Ok b.
Proof.
  destruct r as [a|e]; simpl; intros H; [eauto | discriminate].
Qed.

Lemma lshift_one (pos : Z) : 0 <= pos -> lshift 1 pos = Ok (2 ^ pos).
Proof.
  intros Hpos. unfold lshift.
  destruct (Z.ltb_spec pos 0) as [Hlt|_]; [lia|].
  now rewrite Z.shiftl_1_l.
Qed.

Lemma lshift_neg (a pos : Z) : pos < 0 -> lshift a pos = Raise ValueError.
Proof.
  intros Hneg. unfold lshift.
  destruct (Z.ltb_spec pos 0) as [_|Hge]; [reflexivity | lia].
Qed.

(** The mask [1 << pos] selects exactly bit [pos]. *)
Lemma land_mask (num pos : Z) :
  0 <= pos ->
  Z.land (2 ^ pos) num = if Z.testbit num pos then 2 ^ pos else 0.
Proof.
  intros Hpos. apply Z.bits_inj'. intros j Hj.
  rewrite Z.land_spec, Z.pow2_bits_eqb by assumption.
  destruct (Z.eqb_spec pos j) as [->|Hne].
  - destruct (Z.testbit num j); simpl.
    + now rewrite Z.pow2_bits_eqb, Z.eqb_refl.
    + now rewrite Z.bits_0.
  - simpl. destruct (Z.testbit num pos).
    + rewrite Z.pow2_bits_eqb by assumption.
      symmetry. now apply Z.eqb_neq.
    + now rewrite Z.bits_0.
Qed.

Lemma truthy_mask (num pos : Z) :
  0 <= pos -> truthy (Z.land (2 ^ pos) num) = Z.testbit num pos.
Proof.
  intros Hpos. rewrite land_mask by assumption. unfold truthy.
  destruct (Z.testbit num pos); simpl.
  - assert (0 < 2 ^ pos) by (apply Z.pow_pos_nonneg; lia).
    destruct (Z.eqb_spec (2 ^ pos) 0); [lia | reflexivity].
  - reflexivity.
Qed.

(** Flipping bit [pos] changes that bit and no other. *)
Lemma lxor_mask_bits (num pos j : Z) :
  0 <= pos -> 0 <= j ->
  Z.testbit (Z.lxor num (2 ^ pos)) j
  = if j =? pos then negb (Z.testbit num pos) else Z.testbit num j.
Proof.
  intros Hpos Hj.
  rewrite Z.lxor_spec, Z.pow2_bits_eqb by assumption.
  destruct (Z.eqb_spec j pos) as [->|Hne].
  - rewrite Z.eqb_refl. now destruct (Z.testbit num pos).
  - destruct (Z.eqb_spec pos j) as [->|_]; [contradiction|].
    now rewrite xorb_false_r.
Qed.

(** ** Population count through [bin] *)

Lemma count_app (c : ascii) (s1 s2 : string) :
  count c (s1 ++ s2)%string = count c s1 + count c s2.
Proof.
  induction s1 as [|a s1 IH]; simpl; [reflexivity|].
  rewrite IH. lia.
Qed.

Lemma n_double (z : Z) : 0 <= z -> SpinState.n (2 * z) = SpinState.n z.
Proof.
  intros Hz. destruct z as [|p|p]; [reflexivity | | lia].
  change (2 * Z.pos p) with (Z.pos p~0).
  unfold SpinState.n, bin. simpl bin_digits.
  rewrite !count_app. simpl. lia.
Qed.

Lemma n_succ_double (z : Z) :
  0 <= z -> SpinState.n (2 * z + 1) = SpinState.n z + 1.
Proof.
  intros Hz. destruct z as [|p|p]; [reflexivity | | lia].
  change (2 * Z.pos p + 1) with (Z.pos p~1).
  unfold SpinState.n, bin. simpl bin_digits.
  rewrite !count_app. simpl. lia.
Qed.

Lemma n_div2 (z : Z) :
  0 <= z -> SpinState.n z = SpinState.n (Z.div2 z) + Z.b2z (Z.odd z).
Proof.
  intros Hz.
  assert (Hd : 0 <= Z.div2 z) by now apply Z.div2_nonneg.
  rewrite (Z.div2_odd z) at 1.
  destruct (Z.odd z); simpl Z.b2z.
  - now apply n_succ_double.
  - rewrite !Z.add_0_r. now apply n_double.
Qed.

Lemma n_nonneg (z : Z) : 0 <= SpinState.n z.
Proof.
  unfold SpinState.n. induction (bin z) as [|a s IH]; simpl; [lia|].
  destruct (Ascii.eqb a "1"); lia.
Qed.

(** Flipping one bit of a non-negative state moves its population count
    by one, up when the bit was clear and down when it was set. *)
Lemma n_flip (i : nat) :
  forall s : Z, 0 <= s ->
    SpinState.n (Z.lxor s (2 ^ Z.of_nat i))
    = SpinState.n s + (if Z.testbit s (Z.of_nat i) then -1 else 1).
Proof.
  induction i as [|i IH]; intros s Hs.
  - change (2 ^ Z.of_nat 0) with 1.
    assert (Hx : 0 <= Z.lxor s 1) by (apply Z.lxor_nonneg; lia).
    rewrite (n_div2 Hx), (n_div2 Hs).
    rewrite !Z.div2_spec, Z.shiftr_lxor, <- !Z.bit0_odd, Z.lxor_spec.
    change (Z.shiftr 1 1) with 0. rewrite Z.lxor_0_r.
    change (Z.testbit 1 0) with true. change (Z.of_nat 0) with 0.
    destruct (Z.testbit s 0); simpl; lia.
  - assert (Hp : 0 <= 2 ^ Z.of_nat (S i)) by (apply Z.pow_nonneg; lia).
    assert (Hx : 0 <= Z.lxor s (2 ^ Z.of_nat (S i)))
      by (apply Z.lxor_nonneg; lia).
    rewrite (n_div2 Hx), (n_div2 Hs).
    rewrite <- !Z.bit0_odd, Z.lxor_spec.
    rewrite (Z.pow2_bits_eqb (Z.of_nat (S i)) 0) by lia.
    replace (Z.of_nat (S i) =? 0) with false by (symmetry; apply Z.eqb_neq; lia).
    rewrite xorb_false_r.
    rewrite !Z.div2_spec, Z.shiftr_lxor.
    replace (Z.shiftr (2 ^ Z.of_nat (S i)) 1) with (2 ^ Z.of_nat i).
    2:{ rewrite Z.shiftr_div_pow2 by lia.
        rewrite Nat2Z.inj_succ, Z.pow_succ_r by lia.
        change (2 ^ 1) with 2. rewrite Z.mul_comm, Z.div_mul; lia. }
    rewrite <- Z.div2_spec.
    rewrite IH by now apply Z.div2_nonneg.
    rewrite Z.div2_div, Z.div2_bits, Nat2Z.inj_succ by lia.
    rewrite <- Z.div2_div.
    lia.
Qed.

Lemma n_lxor_mask (s pos : Z) :
  0 <= s -> 0 <= pos ->
  SpinState.n (Z.lxor s (2 ^ pos))
  = SpinState.n s + (if Z.testbit s pos then -1 else 1).
Proof.
  intros Hs Hpos. rewrite <- (Z2Nat.id pos Hpos). now apply n_flip.
Qed.

(** ** Outcomes of [create] and [annihilate] *)

Lemma create_unfold (num pos : Z) :
  0 <= pos ->
  create num pos
  = if Z.testbit num pos then Ok None else Ok (Some (Z.lxor num (2 ^ pos))).
Proof.
  intros Hpos. unfold create.
  rewrite lshift_one by assumption. simpl.
  rewrite truthy_mask by assumption.
  now destruct (Z.testbit num pos).
Qed.

Lemma annihilate_unfold (num pos : Z) :
  0 <= pos ->
  annihilate num pos
  = if Z.testbit num pos then Ok (Some (Z.lxor num (2 ^ pos))) else Ok None.
Proof.
  intros Hpos. unfold annihilate.
  rewrite lshift_one by assumption. simpl.
  now rewrite truthy_mask by assumption.
Qed.

Lemma create_neg_pos (num pos : Z) : pos < 0 -> create num pos = Raise ValueError.
Proof.
  intros Hneg. unfold create. now rewrite lshift_neg.
Qed.

Lemma create_some_inv (num pos new : Z) :
  create num pos = Ok (Some new) ->
  0 <= pos /\ Z.testbit num pos = false /\ new = Z.lxor num (2 ^ pos).
Proof.
  intros H. destruct (Z.lt_ge_cases pos 0) as [Hneg|Hpos].
  - rewrite create_neg_pos in H by assumption. discriminate.
  - rewrite create_unfold in H by assumption.
    destruct (Z.testbit num pos); [discriminate|].
    injection H as <-. auto.
Qed.

(** The methods of [SpinState] wrap the outcome in the class constructor,
    which rejects the sentinel. *)
Lemma SpinState_create_occupied (self pos : Z) :
  0 <= pos -> Z.testbit self pos = true ->
  create self pos = Ok None /\ SpinState.create self pos = Raise TypeError.
Proof.
  intros Hpos Hbit. unfold SpinState.create.
  rewrite create_unfold, Hbit by assumption. auto.
Qed.

Lemma SpinState_annihilate_vacant (self pos : Z) :
  0 <= pos -> Z.testbit self pos = false ->
  annihilate self pos = Ok None /\ SpinState.annihilate self pos = Raise TypeError.
Proof.
  intros Hpos Hbit. unfold SpinState.annihilate.
  rewrite annihilate_unfold, Hbit by assumption. auto.
Qed.

(** C2.  For a non-negative state [s] and a site [i]: [create] succeeds
    exactly when bit [i] of [s] is clear, the new state is [s] with bit [i]
    set and holds one particle more; it returns [None] exactly when the bit
    is set.  [annihilate] is the mirror image.  Both are functions of their
    arguments, so the input state is left as it was. *)
Theorem create_annihilate_spec (s i : Z) (Hs : 0 <= s) (Hi : 0 <= i) :
  ((exists s', create s i = Ok (Some s')) <-> Z.testbit s i = false)
  /\ (forall s', create s i = Ok (Some s') ->
        (forall j, 0 <= j ->
           Z.testbit s' j = if j =? i then true else Z.testbit s j)
        /\ SpinState.n s' = SpinState.n s + 1)
  /\ (create s i = Ok None <-> Z.testbit s i = true)
  /\ ((exists s', annihilate s i = Ok (Some s')) <-> Z.testbit s i = true)
  /\ (forall s', annihilate s i = Ok (Some s') ->
        (forall j, 0 <= j ->
           Z.testbit s' j = if j =? i then false else Z.testbit s j)
        /\ SpinState.n s' = SpinState.n s - 1)
  /\ (annihilate s i = Ok None <-> Z.testbit s i = false).
Proof.
  rewrite create_unfold, annihilate_unfold by assumption.
  pose proof (n_lxor_mask Hs Hi) as Hn.
  pose proof (fun j => @lxor_mask_bits s i j Hi) as Hb.
  destruct (Z.testbit s i) eqn:Hbit; simpl in Hb.
  - split; [split; [intros [x Hx]; discriminate | discriminate]|].
    split; [intros x Hx; discriminate|].
    split; [split; reflexivity|].
    split; [split; [reflexivity | eauto]|].
    split; [|split; discriminate].
    intros x [= <-]. split; [intros j Hj; now apply Hb | lia].
  - split; [split; [reflexivity | eauto]|].
    split; [intros x [= <-]; split; [intros j Hj; now apply Hb | lia]|].
    split; [split; discriminate|].
    split; [split; [intros [x Hx]; discriminate | discriminate]|].
    split; [intros x Hx; discriminate|].
    split; reflexivity.
Qed.

Lemma create_annihilate_spec_witness :
  0 <= 5 /\ 0 <= 1
  /\ create 5 1 = Ok (Some 7) /\ SpinState.n 7 = SpinState.n 5 + 1
  /\ annihilate 7 1 = Ok (Some 5) /\ SpinState.n 5 = SpinState.n 7 - 1
  /\ (create 7 1 = Ok None <-> Z.testbit 7 1 = true).
Proof.
  assert (H5 : 0 <= 5) by lia. assert (H7 : 0 <= 7) by lia.
  assert (H1 : 0 <= 1) by lia.
  destruct (create_annihilate_spec H5 H1) as (_ & Hc & _).
  destruct (create_annihilate_spec H7 H1) as (_ & _ & Hn & _ & Ha & _).
  split; [exact H5|]. split; [exact H1|].
  split; [reflexivity|]. split; [apply (Hc 7); reflexivity|].
  split; [reflexivity|]. split; [apply (Ha 5); reflexivity|].
  exact Hn.
Defined.

(** C9.  Whenever [create s i] succeeds with the state [s'], annihilating
    site [i] of [s'] succeeds and gives back [s]. *)
Theorem annihilate_create_roundtrip (s i s' : Z) :
  create s i = Ok (Some s') -> annihilate s' i = Ok (Some s).
Proof.
  intros H. apply create_some_inv in H. destruct H as (Hi & Hbit & ->).
  rewrite annihilate_unfold by assumption.
  rewrite lxor_mask_bits, Z.eqb_refl, Hbit by assumption. simpl.
  now rewrite Z.lxor_assoc, Z.lxor_nilpotent, Z.lxor_0_r.
Qed.

Lemma annihilate_create_roundtrip_witness :
  create 5 1 = Ok (Some 7) /\ annihilate 7 1 = Ok (Some 5).
Proof.
  split; [reflexivity | apply (@annihilate_create_roundtrip 5 1 7); reflexivity].
Defined.

(** C5.  On an occupied site the function [create] returns [None], but the
    method [SpinState.create] passes that [None] to the class constructor
    and raises [TypeError]; likewise [annihilate] on a vacant site. *)
Theorem SpinState_create_occupied_raises :
  create 1 0 = Ok None
  /\ SpinState.create 1 0 = Raise TypeError
  /\ annihilate 0 0 = Ok None
  /\ SpinState.annihilate 0 0 = Raise TypeError.
Proof.
  repeat split; reflexivity.
Qed.

(** ** Indexing and the product of two lists *)

Lemma getitem_in_range {A : Type} (l : list A) (i : Z) :
  0 <= i < Z.of_nat (List.length l) ->
  exists a, nth_error l (Z.to_nat i) = Some a /\ getitem l i = Ok a.
Proof.
  intros Hi. unfold getitem.
  destruct (Z.ltb_spec i 0) as [Hlt|_]; [lia|].
  destruct (Z.ltb_spec i 0) as [Hlt|_]; [lia|].
  destruct (Z.leb_spec (Z.of_nat (List.length l)) i) as [Hle|_]; [lia|].
  simpl. destruct (nth_error l (Z.to_nat i)) as [a|] eqn:Hnth.
  - now exists a.
  - apply nth_error_None in Hnth. lia.
Qed.

Section Product.

Context {A B C : Type} (f : A -> B -> C).

Lemma product_with_cons (x : A) (xs : list A) (ys : list B) :
  product_with f (x :: xs) ys = map (f x) ys ++ product_with f xs ys.
Proof.
  unfold product_with, product. simpl. now rewrite map_app, map_map.
Qed.

Lemma product_with_length (xs : list A) (ys : list B) :
  List.length (product_with f xs ys) = (List.length xs * List.length ys)%nat.
Proof.
  induction xs as [|x xs IH]; [reflexivity|].
  rewrite product_with_cons, length_app, length_map, IH. reflexivity.
Qed.

Lemma product_with_nth (ys : list B) (j : nat) (b : B) :
  nth_error ys j = Some b ->
  forall (xs : list A) (i : nat) (a : A),
    nth_error xs i = Some a ->
    nth_error (product_with f xs ys) (i * List.length ys + j) = Some (f a b).
Proof.
  intros Hj xs. induction xs as [|x xs IH]; intros i a Hi.
  - destruct i; discriminate.
  - rewrite product_with_cons. destruct i as [|i]; simpl in Hi.
    + injection Hi as ->. simpl.
      rewrite nth_error_app1.
      * now apply map_nth_error.
      * rewrite length_map. apply nth_error_Some. congruence.
    + rewrite nth_error_app2 by (rewrite length_map; simpl; lia).
      rewrite length_map.
      replace (S i * List.length ys + j - List.length ys)%nat
        with (i * List.length ys + j)%nat by (simpl; lia).
      now apply IH.
Qed.

Lemma product_with_In (xs : list A) (ys : list B) (c : C) :
  In c (product_with f xs ys) <-> exists a b, In a xs /\ In b ys /\ c = f a b.
Proof.
  unfold product_with, product. rewrite in_map_iff. split.
  - intros ([a b] & <- & Hin). apply in_flat_map in Hin.
    destruct Hin as (a' & Ha & Hab). apply in_map_iff in Hab.
    destruct Hab as (b' & [= <- <-] & Hb). eauto.
  - intros (a & b & Ha & Hb & ->). exists (a, b). split; [reflexivity|].
    apply in_flat_map. exists a. split; [assumption|].
    apply in_map_iff. eauto.
Qed.

End Product.

(** C1.  [get_state_index] is [idx_up * size + idx_dn] with [size] the
    product of the two list lengths, and for indices inside the two lists
    [get_spin_states] of that flat index returns
    [(up_states[idx_up], dn_states[idx_dn])]. *)
Theorem get_spin_states_get_state_index
        (self : BasisSector.t) (idx_up idx_dn : Z)
        (Hup : 0 <= idx_up < Z.of_nat (List.length (BasisSector.up_states self)))
        (Hdn : 0 <= idx_dn < Z.of_nat (List.length (BasisSector.dn_states self))) :
  BasisSector.get_state_index self idx_up idx_dn
  = idx_up * (Z.of_nat (List.length (BasisSector.up_states self))
              * Z.of_nat (List.length (BasisSector.dn_states self))) + idx_dn
  /\ exists u d,
       getitem (BasisSector.up_states self) idx_up = Ok u
       /\ getitem (BasisSector.dn_states self) idx_dn = Ok d
       /\ nth_error (BasisSector.up_states self) (Z.to_nat idx_up) = Some u
       /\ nth_error (BasisSector.dn_states self) (Z.to_nat idx_dn) = Some d
       /\ BasisSector.get_spin_states self
            (BasisSector.get_state_index self idx_up idx_dn) = Ok (u, d).
Proof.
  split; [reflexivity|].
  destruct (getitem_in_range _ Hup) as (u & Hnu & Hgu).
  destruct (getitem_in_range _ Hdn) as (d & Hnd & Hgd).
  exists u, d. repeat (split; [assumption|]).
  unfold BasisSector.get_spin_states, BasisSector.get_state_index, floordiv, pymod.
  set (size := BasisSector.size self).
  assert (Hsize : idx_dn < size) by (subst size; unfold BasisSector.size; nia).
  destruct (Z.eqb_spec size 0) as [Hz|_]; [lia|]. simpl.
  rewrite Z.div_add_l by lia.
  rewrite (Z.div_small idx_dn size) by lia.
  rewrite Z.add_0_r, Hgu. simpl.
  rewrite Z.add_comm, Z.mod_add by lia.
  rewrite Z.mod_small by lia.
  rewrite Hgd. reflexivity.
Qed.


Lemma get_spin_states_get_state_index_witness :
  BasisSector.get_state_index sector_1x2 0 1 = 1
  /\ BasisSector.get_spin_states sector_1x2 1 = Ok (3, 2).
Proof.
  assert (Hup : 0 <= 0 < Z.of_nat (List.length (BasisSector.up_states sector_1x2)))
    by (simpl; lia).
  assert (Hdn : 0 <= 1 < Z.of_nat (List.length (BasisSector.dn_states sector_1x2)))
    by (simpl; lia).
  destruct (get_spin_states_get_state_index sector_1x2 Hup Hdn)
    as (Hidx & u & d & Hu & Hd & _ & _ & Hget).
  split; [exact Hidx|].
  injection Hu as <-. injection Hd as <-. exact Hget.
Defined.

Lemma states_product_with (self : BasisSector.t) :
  BasisSector.states self
  = product_with State.mk (BasisSector.up_states self) (BasisSector.dn_states self).
Proof.
  reflexivity.
Qed.

(** C6.  Iterating [states] of a sector yields [size] composite states,
    the one at position [i * len(dn_states) + j] being
    [State(up_states[i], dn_states[j])], and every yielded state pairs a
    member of [up_states] with a member of [dn_states].  For two sites the
    sector (1, 1) has [up_states = dn_states = [1, 2]], size 4 and yields
    (1,1), (1,2), (2,1), (2,2). *)
Theorem BasisSector_states_cartesian :
  (forall self : BasisSector.t,
      Z.of_nat (List.length (BasisSector.states self)) = BasisSector.size self
      /\ (forall (i j : nat) (u d : Z),
             nth_error (BasisSector.up_states self) i = Some u ->
             nth_error (BasisSector.dn_states self) j = Some d ->
             nth_error (BasisSector.states self)
                       (i * List.length (BasisSector.dn_states self) + j)
             = Some (State.mk u d))
      /\ (forall s : State.t,
             In s (BasisSector.states self)
             <-> In (State.up s) (BasisSector.up_states self)
                 /\ In (State.dn s) (BasisSector.dn_states self)))
  /\ (forall g : globals,
         exists g' basis sector,
           FockBasis.init 2 g = (g', Ok basis)
           /\ FockBasis.get_sector basis (Some 1) (Some 1) None = Ok sector
           /\ BasisSector.up_states sector = [1; 2]
           /\ BasisSector.dn_states sector = [1; 2]
           /\ BasisSector.size sector = 4
           /\ BasisSector.states sector
              = [State.mk 1 1; State.mk 1 2; State.mk 2 1; State.mk 2 2]).
Proof.
  split.
  - intros self. split; [|split].
    + rewrite states_product_with. unfold BasisSector.size.
      rewrite product_with_length. lia.
    + intros i j u d Hu Hd. rewrite states_product_with.
      now apply product_with_nth.
    + intros [u d]. rewrite states_product_with.
      rewrite product_with_In. simpl. split.
      * intros (a & b & Ha & Hb & [= -> ->]). auto.
      * intros [Ha Hb]. eauto.
  - intros g. eexists _, _, _.
    split; [reflexivity|]. split; [reflexivity|].
    repeat split.
Qed.

Lemma BasisSector_states_cartesian_witness :
  nth_error (BasisSector.states (BasisSector.mk 2 (Some 1) (Some 1) [1; 2] [1; 2]))
            (1 * 2 + 0)
  = Some (State.mk 2 1).
Proof.
  destruct BasisSector_states_cartesian as [Hgen _].
  destruct (Hgen (BasisSector.mk 2 (Some 1) (Some 1) [1; 2] [1; 2]))
    as (_ & Hnth & _).
  apply (Hnth 1%nat 0%nat 2 1); reflexivity.
Defined.

(** ** Enumeration of the spin states *)

Lemma int2_digits_ones (n : nat) :
  forall acc : Z,
    int2_digits acc (string_of_list_ascii (repeat "1"%char n))
    = Ok (acc * 2 ^ Z.of_nat n + 2 ^ Z.of_nat n - 1).
Proof.
  induction n as [|n IH]; intros acc.
  - simpl. f_equal. lia.
  - cbn [repeat string_of_list_ascii int2_digits].
    rewrite IH, Nat2Z.inj_succ, Z.pow_succ_r by lia. f_equal. lia.
Qed.

Lemma int2_ones (n : Z) :
  1 <= n -> int2 (str_repeat "1" n) = Ok (2 ^ n - 1).
Proof.
  intros Hn. unfold str_repeat.
  destruct (Z.to_nat n) as [|m] eqn:Hm; [lia|].
  change (int2 (string_of_list_ascii (repeat "1"%char (S m))))
    with (int2_digits 0 (string_of_list_ascii (repeat "1"%char (S m)))).
  rewrite int2_digits_ones, <- Hm, Z2Nat.id by lia. f_equal.
Qed.

Lemma int2_no_ones (n : Z) :
  n <= 0 -> int2 (str_repeat "1" n) = Raise ValueError.
Proof.
  intros Hn. unfold str_repeat.
  replace (Z.to_nat n) with 0%nat by lia. reflexivity.
Qed.

Lemma mapM_new (l : list Z) :
  mapM (fun num => SpinState.new (Some num)) l = Ok l.
Proof.
  induction l as [|a l IH]; [reflexivity|].
  cbn [mapM]. change (SpinState.new (Some a)) with (Ok a).
  cbn [bind]. now rewrite IH.
Qed.

Lemma create_spinstates_pos (num_sites : Z) (g : globals) :
  1 <= num_sites ->
  create_spinstates num_sites g
  = ({| BITS := num_sites |}, Ok (range (2 ^ num_sites))).
Proof.
  intros Hn. unfold create_spinstates.
  rewrite int2_ones by assumption. cbn [bind].
  rewrite mapM_new. do 3 f_equal. lia.
Qed.

Lemma create_spinstates_nonpos (num_sites : Z) (g : globals) :
  num_sites <= 0 ->
  create_spinstates num_sites g = ({| BITS := num_sites |}, Raise ValueError).
Proof.
  intros Hn. unfold create_spinstates. now rewrite int2_no_ones.
Qed.

Lemma range_length (n : Z) : 0 <= n -> Z.of_nat (List.length (range n)) = n.
Proof.
  intros Hn. unfold range. rewrite length_map, length_seq. lia.
Qed.

Lemma range_In (n s : Z) : In s (range n) <-> 0 <= s < n.
Proof.
  unfold range. rewrite in_map_iff. split.
  - intros (k & <- & Hk). apply in_seq in Hk. lia.
  - intros Hs. exists (Z.to_nat s). split; [lia|]. apply in_seq. lia.
Qed.

Lemma range_nth (n : Z) (k : nat) :
  (k < Z.to_nat n)%nat -> nth_error (range n) k = Some (Z.of_nat k).
Proof.
  intros Hk. unfold range.
  apply map_nth_error. rewrite nth_error_nth' with (d := 0%nat).
  - now rewrite seq_nth.
  - now rewrite length_seq.
Qed.

Lemma seq_sorted (len start : nat) :
  StronglySorted Z.lt (map Z.of_nat (seq start len)).
Proof.
  revert start. induction len as [|len IH]; intros start; simpl.
  - constructor.
  - constructor; [apply IH|].
    apply Forall_forall. intros z Hz. apply in_map_iff in Hz.
    destruct Hz as (k & <- & Hk). apply in_seq in Hk. lia.
Qed.

Lemma range_sorted (n : Z) : StronglySorted Z.lt (range n).
Proof.
  apply seq_sorted.
Qed.

Lemma sorted_NoDup (l : list Z) : StronglySorted Z.lt l -> NoDup l.
Proof.
  induction 1 as [|a l Hs IH Hall]; constructor; [|assumption].
  intros Hin. rewrite Forall_forall in Hall. specialize (Hall a Hin). lia.
Qed.

Lemma sorted_filter (p : Z -> bool) (l : list Z) :
  StronglySorted Z.lt l -> StronglySorted Z.lt (filter p l).
Proof.
  induction 1 as [|a l Hs IH Hall]; simpl; [constructor|].
  destruct (p a); [|assumption].
  constructor; [assumption|].
  rewrite Forall_forall in *. intros x Hx.
  apply filter_In in Hx. now apply Hall.
Qed.


(** C3.  The enumeration is to list the [2^N] states [0 .. 2^N - 1] for
    every site count from 0 on.  For no sites that is the single empty
    state, but the literal ["1" * 0] handed to [int] is empty:
    [create_spinstates(0)] rebinds [BITS] to 0 and then raises
    [ValueError], so no list of length [2^0] is returned. *)
Lemma create_spinstates_zero_raises :
  create_spinstates 0 initial_globals = ({| BITS := 0 |}, Raise ValueError)
  /\ ~ (exists l, snd (create_spinstates 0 initial_globals) = Ok l
                  /\ Z.of_nat (List.length l) = 2 ^ 0).
Proof.
  split; [reflexivity|]. intros (l & Hl & _). discriminate.
Qed.

(** For every positive site count [N] the enumeration rebinds [BITS] to
    [N] and returns [2^N] states without repetition, each in
    [0, 2^N - 1], every such integer among them, in increasing order:
    position [k] holds [k]. *)
Theorem create_spinstates_enumerates (N : Z) (g : globals)
        (HN : 1 <= N) :
  exists l,
    create_spinstates N g = ({| BITS := N |}, Ok l)
    /\ Z.of_nat (List.length l) = 2 ^ N
    /\ NoDup l
    /\ (forall s, In s l <-> 0 <= s <= 2 ^ N - 1)
    /\ StronglySorted Z.lt l
    /\ (forall k : nat, Z.of_nat k < 2 ^ N -> nth_error l k = Some (Z.of_nat k)).
Proof.
  assert (Hp : 0 < 2 ^ N) by (apply Z.pow_pos_nonneg; lia).
  exists (range (2 ^ N)).
  split; [apply create_spinstates_pos; lia|].
  split; [apply range_length; lia|].
  split; [apply sorted_NoDup, range_sorted|].
  split; [intros s; rewrite range_In; lia|].
  split; [apply range_sorted|].
  intros k Hk. apply range_nth. lia.
Qed.

Lemma create_spinstates_enumerates_witness :
  1 <= 3
  /\ exists l,
       create_spinstates 3 initial_globals = ({| BITS := 3 |}, Ok l)
       /\ Z.of_nat (List.length l) = 2 ^ 3
       /\ NoDup l
       /\ (forall s, In s l <-> 0 <= s <= 2 ^ 3 - 1)
       /\ StronglySorted Z.lt l
       /\ (forall k : nat, Z.of_nat k < 2 ^ 3 -> nth_error l k = Some (Z.of_nat k)).
Proof.
  assert (H : 1 <= 3) by lia.
  split; [exact H|]. exact (create_spinstates_enumerates initial_globals H).
Defined.

(** ** Grouping into the filling dictionary *)


Lemma dict_lookup_append (d : dict) (k v k' : Z) :
  dict_lookup (dict_append d k v) k'
  = if k =? k'
    then Some (match dict_lookup d k with
               | Some b => b ++ [v]
               | None => [v]
               end)
    else dict_lookup d k'.
Proof.
  induction d as [|[k0 b] d IH]; simpl.
  - rewrite (Z.eqb_sym k k'). reflexivity.
  - destruct (Z.eqb_spec k0 k) as [->|Hne]; simpl.
    + destruct (Z.eqb_spec k k'); reflexivity.
    + rewrite IH. destruct (Z.eqb_spec k0 k') as [->|Hne'].
      * destruct (Z.eqb_spec k k'); [congruence | reflexivity].
      * reflexivity.
Qed.

Lemma keys_In (d : dict) (k : Z) :
  In k (keys d) <-> dict_lookup d k <> None.
Proof.
  induction d as [|[k0 b] d IH]; simpl.
  - split; [contradiction | congruence].
  - destruct (Z.eqb_spec k0 k) as [->|Hne].
    + split; [discriminate | auto].
    + rewrite <- IH. split; [intros [?|?]; [contradiction | assumption] | auto].
Qed.

Lemma keys_append_In (d : dict) (k v k' : Z) :
  In k' (keys (dict_append d k v)) <-> k' = k \/ In k' (keys d).
Proof.
  rewrite !keys_In, dict_lookup_append.
  destruct (Z.eqb_spec k k') as [->|Hne].
  - split; [auto | discriminate].
  - split; [auto | intros [?|?]; [congruence | assumption]].
Qed.

Lemma keys_append_NoDup (d : dict) (k v : Z) :
  NoDup (keys d) -> NoDup (keys (dict_append d k v)).
Proof.
  induction d as [|[k0 b] d IH]; simpl; intros Hnd.
  - constructor; [intros [] | constructor].
  - destruct (Z.eqb_spec k0 k) as [->|Hne]; simpl; [assumption|].
    inversion Hnd as [|? ? Hnotin Hnd']; subst.
    constructor; [|now apply IH].
    change (~ In k0 (keys (dict_append d k v))).
    rewrite keys_append_In. intros [?|?]; [congruence | contradiction].
Qed.

Lemma dict_append_concat (d : dict) (k v : Z) :
  Permutation (List.concat (map snd (dict_append d k v)))
              (List.concat (map snd d) ++ [v]).
Proof.
  induction d as [|[k0 b] d IH]; simpl.
  - reflexivity.
  - destruct (Z.eqb_spec k0 k) as [->|Hne]; simpl.
    + rewrite <- !app_assoc. apply Permutation_app_head.
      apply Permutation_app_comm.
    + rewrite <- app_assoc. now apply Permutation_app_head.
Qed.

Lemma dict_lookup_In (d : dict) (k : Z) (b : list Z) :
  NoDup (keys d) -> In (k, b) d -> dict_lookup d k = Some b.
Proof.
  induction d as [|[k0 b0] d IH]; simpl; intros Hnd Hin; [contradiction|].
  inversion Hnd as [|? ? Hnotin Hnd']; subst.
  destruct Hin as [[= -> ->]|Hin].
  - now rewrite Z.eqb_refl.
  - destruct (Z.eqb_spec k0 k) as [->|Hne]; [|now apply IH].
    exfalso. apply Hnotin. change (In (fst (k, b)) (map fst d)).
    now apply in_map.
Qed.

Section Grouping.

Variable key : Z -> Z.

Lemma group_snoc (l : list Z) (x : Z) :
  group key (l ++ [x]) = dict_append (group key l) (key x) x.
Proof.
  unfold group. now rewrite fold_left_app.
Qed.

Lemma group_keys_NoDup (l : list Z) : NoDup (keys (group key l)).
Proof.
  induction l as [|x l IH] using rev_ind.
  - constructor.
  - rewrite group_snoc. now apply keys_append_NoDup.
Qed.

Lemma group_lookup (l : list Z) (k : Z) :
  dict_lookup (group key l) k = nonempty (filter (fun s => key s =? k) l).
Proof.
  induction l as [|x l IH] using rev_ind; [reflexivity|].
  rewrite group_snoc, dict_lookup_append, filter_app. simpl.
  destruct (Z.eqb_spec (key x) k) as [<-|Hne].
  - rewrite IH.
    destruct (filter (fun s => key s =? key x) l); reflexivity.
  - now rewrite app_nil_r.
Qed.

Lemma group_concat (l : list Z) :
  Permutation (List.concat (map snd (group key l))) l.
Proof.
  induction l as [|x l IH] using rev_ind; [reflexivity|].
  rewrite group_snoc, dict_append_concat.
  now apply Permutation_app_tail.
Qed.

Lemma group_bucket (l : list Z) (k : Z) (b : list Z) :
  In (k, b) (group key l) ->
  b = filter (fun s => key s =? k) l /\ b <> [].
Proof.
  intros Hin. apply dict_lookup_In in Hin; [|apply group_keys_NoDup].
  rewrite group_lookup in Hin.
  destruct (filter (fun s => key s =? k) l); [discriminate|].
  injection Hin as <-. split; [reflexivity | discriminate].
Qed.

Lemma group_keys_In (l : list Z) (k : Z) :
  In k (keys (group key l)) <-> exists s, In s l /\ key s = k.
Proof.
  rewrite keys_In, group_lookup. split.
  - intros Hne. destruct (filter (fun s => key s =? k) l) as [|s b] eqn:Hf;
      [now contradiction Hne|].
    assert (Hs : In s (filter (fun s => key s =? k) l)) by (rewrite Hf; now left).
    apply filter_In in Hs. destruct Hs as [Hs Hk].
    exists s. split; [assumption | now apply Z.eqb_eq].
  - intros (s & Hs & Hk).
    assert (Hin : In s (filter (fun s => key s =? k) l))
      by (apply filter_In; split; [assumption | now apply Z.eqb_eq]).
    destruct (filter (fun s => key s =? k) l); [contradiction | discriminate].
Qed.

End Grouping.

(** ** Range of the population count *)

Lemma n_le_width (N : nat) :
  forall s : Z, 0 <= s < 2 ^ Z.of_nat N -> SpinState.n s <= Z.of_nat N.
Proof.
  induction N as [|N IH]; intros s Hs.
  - change (2 ^ Z.of_nat 0) with 1 in Hs.
    replace s with 0 by lia. unfold SpinState.n. simpl. lia.
  - rewrite Nat2Z.inj_succ, Z.pow_succ_r in Hs by lia.
    assert (Hd : 0 <= Z.div2 s < 2 ^ Z.of_nat N).
    { rewrite Z.div2_div. split.
      - apply Z.div_pos; lia.
      - apply Z.div_lt_upper_bound; lia. }
    rewrite n_div2 by lia. specialize (IH _ Hd).
    destruct (Z.odd s); simpl Z.b2z; lia.
Qed.

Lemma n_ones (k : nat) : SpinState.n (2 ^ Z.of_nat k - 1) = Z.of_nat k.
Proof.
  induction k as [|k IH]; [reflexivity|].
  rewrite Nat2Z.inj_succ, Z.pow_succ_r by lia.
  replace (2 * 2 ^ Z.of_nat k - 1) with (2 * (2 ^ Z.of_nat k - 1) + 1) by lia.
  assert (0 < 2 ^ Z.of_nat k) by (apply Z.pow_pos_nonneg; lia).
  rewrite n_succ_double by lia. lia.
Qed.

(** Among the states on [N] sites exactly the fillings [0..N] occur. *)
Lemma filling_occurs (N k : Z) :
  0 <= N ->
  (exists s, In s (range (2 ^ N)) /\ SpinState.n s = k) <-> 0 <= k <= N.
Proof.
  intros HN. split.
  - intros (s & Hs & <-). apply range_In in Hs. split; [apply n_nonneg|].
    rewrite <- (Z2Nat.id N HN). apply n_le_width.
    rewrite Z2Nat.id by assumption. lia.
  - intros Hk. exists (2 ^ k - 1). split.
    + apply range_In.
      assert (0 < 2 ^ k) by (apply Z.pow_pos_nonneg; lia).
      assert (2 ^ k <= 2 ^ N) by (apply Z.pow_le_mono_r; lia).
      lia.
    + rewrite <- (Z2Nat.id k) at 1 by lia. rewrite n_ones. lia.
Qed.

Lemma existsb_eqb_In (k : Z) (l : list Z) :
  existsb (Z.eqb k) l = true <-> In k l.
Proof.
  rewrite existsb_exists. split.
  - intros (x & Hx & Heq). apply Z.eqb_eq in Heq. now subst.
  - intros Hin. exists k. split; [assumption | apply Z.eqb_refl].
Qed.

(** ** The initialised basis *)


Lemma init_basis_pos (self : FockBasis.t) (N : Z) (g : globals) :
  1 <= N ->
  FockBasis.init_basis self N g = ({| BITS := N |}, basis_of N, Ok tt).
Proof.
  intros HN. unfold FockBasis.init_basis.
  now rewrite create_spinstates_pos.
Qed.

Lemma init_basis_nonpos (self : FockBasis.t) (N : Z) (g : globals) :
  N <= 0 ->
  FockBasis.init_basis self N g = ({| BITS := N |}, self, Raise ValueError).
Proof.
  intros HN. unfold FockBasis.init_basis.
  now rewrite create_spinstates_nonpos.
Qed.

Lemma init_basis_ok_inv (self b : FockBasis.t) (N : Z) (g g' : globals) :
  FockBasis.init_basis self N g = (g', b, Ok tt) ->
  1 <= N /\ b = basis_of N.
Proof.
  intros H. destruct (Z.le_gt_cases N 0) as [Hle|Hgt].
  - rewrite init_basis_nonpos in H by assumption. discriminate.
  - rewrite init_basis_pos in H by lia. split; [lia|].
    now injection H as _ <-.
Qed.

Lemma initialized_inv (b : FockBasis.t) (N : Z) :
  initialized b N -> 1 <= N /\ b = basis_of N.
Proof.
  intros (self & g & g' & H). eapply init_basis_ok_inv; eassumption.
Qed.

Lemma init_initialized (N : Z) (g g' : globals) (b : FockBasis.t) :
  N <> 0 -> FockBasis.init N g = (g', Ok b) -> initialized b N.
Proof.
  intros HN H. unfold FockBasis.init, truthy in H.
  destruct (Z.eqb_spec N 0) as [|_]; [contradiction|]. simpl in H.
  destruct (FockBasis.init_basis _ N g) as [[g1 b1] [[]|e]] eqn:Hib;
    [|discriminate].
  injection H as <- <-. red. eauto.
Qed.

Lemma fillings_basis_of (N k : Z) :
  0 <= N -> In k (FockBasis.fillings (basis_of N)) <-> 0 <= k <= N.
Proof.
  intros HN. unfold FockBasis.fillings, basis_of. simpl.
  rewrite group_keys_In. now apply filling_occurs.
Qed.

Lemma contains_basis_of (N : Z) (v : option Z) :
  0 <= N ->
  contains (FockBasis.fillings (basis_of N)) v
  = match v with
    | Some k => (0 <=? k) && (k <=? N)
    | None => false
    end.
Proof.
  intros HN. destruct v as [k|]; [|reflexivity]. simpl.
  apply eq_true_iff_eq.
  rewrite existsb_eqb_In, andb_true_iff, !Z.leb_le.
  now apply (fillings_basis_of k HN).
Qed.

Lemma get_spinstates_basis_of (N : Z) (v : option Z) :
  0 <= N ->
  FockBasis.get_spinstates (basis_of N) v
  = Ok (if contains (FockBasis.fillings (basis_of N)) v
        then match v with
             | Some k => bucket N k
             | None => range (2 ^ N)
             end
        else range (2 ^ N)).
Proof.
  intros HN. unfold FockBasis.get_spinstates. cbn [basis_of FockBasis._sectors
    FockBasis._spinstates]. f_equal.
  destruct v as [k|]; [|reflexivity].
  unfold FockBasis.fillings.
  cbn [dict_get contains basis_of FockBasis._fillings].
  rewrite group_lookup. fold (bucket N k).
  destruct (existsb (Z.eqb k) _) eqn:Hex.
  - apply existsb_eqb_In, group_keys_In in Hex.
    destruct Hex as (s & Hs & Hk).
    assert (Hin : In s (bucket N k))
      by (apply filter_In; split; [assumption | now apply Z.eqb_eq]).
    destruct (bucket N k); [contradiction | reflexivity].
  - destruct (bucket N k) as [|s r] eqn:Hb; [reflexivity|]. exfalso.
    assert (Hin : In s (bucket N k)) by (rewrite Hb; now left).
    apply filter_In in Hin. destruct Hin as [Hs Hk]. apply Z.eqb_eq in Hk.
    assert (Hex' : existsb (Z.eqb k) (keys (group SpinState.n (range (2 ^ N))))
                   = true)
      by (apply existsb_eqb_In, group_keys_In; eauto).
    congruence.
Qed.

(** C4.  [init_basis(N)] returns for every positive [N], and whenever it
    has returned the filling map partitions the enumeration [0 .. 2^N - 1]:
    the buckets together are a rearrangement of the enumeration and hold no
    state twice, keys are distinct, every state of bucket [k] has [k]
    occupied sites, and a bucket lists its states in enumeration order,
    that is ascending. *)
Theorem init_basis_partition :
  (forall (self : FockBasis.t) (N : Z) (g : globals),
      1 <= N ->
      exists b, FockBasis.init_basis self N g = ({| BITS := N |}, b, Ok tt))
  /\ (forall (self b : FockBasis.t) (N : Z) (g g' : globals),
         FockBasis.init_basis self N g = (g', b, Ok tt) ->
         exists d,
           FockBasis._sectors b = FockBasis.Defaultdict d
           /\ FockBasis._spinstates b = range (2 ^ N)
           /\ FockBasis._fillings b = keys d
           /\ Permutation (List.concat (map snd d)) (FockBasis._spinstates b)
           /\ NoDup (List.concat (map snd d))
           /\ NoDup (keys d)
           /\ (forall k states,
                  In (k, states) d ->
                  (forall s, In s states -> SpinState.n s = k)
                  /\ states = filter (fun s => SpinState.n s =? k)
                                     (FockBasis._spinstates b)
                  /\ states <> []
                  /\ StronglySorted Z.lt states)).
Proof.
  split.
  - intros self N g HN. exists (basis_of N). now apply init_basis_pos.
  - intros self b N g g' H. apply init_basis_ok_inv in H.
    destruct H as [HN ->].
    exists (group SpinState.n (range (2 ^ N))). cbn [basis_of
      FockBasis._sectors FockBasis._spinstates FockBasis._fillings].
    split; [reflexivity|]. split; [reflexivity|]. split; [reflexivity|].
    split; [apply group_concat|].
    split.
    { apply Permutation_NoDup with (l := range (2 ^ N)).
      - apply Permutation_sym, group_concat.
      - apply sorted_NoDup, range_sorted. }
    split; [apply group_keys_NoDup|].
    intros k states Hin. apply group_bucket in Hin. destruct Hin as [-> Hne].
    split.
    { intros s Hs. apply filter_In in Hs. now apply Z.eqb_eq. }
    split; [reflexivity|]. split; [assumption|].
    apply sorted_filter, range_sorted.
Qed.

Lemma init_basis_partition_witness :
  1 <= 2
  /\ FockBasis.init_basis (basis_of 1) 2 initial_globals
     = ({| BITS := 2 |}, basis_of 2, Ok tt)
  /\ exists d,
       FockBasis._sectors (basis_of 2) = FockBasis.Defaultdict d
       /\ Permutation (List.concat (map snd d)) [0; 1; 2; 3]
       /\ In (1, [1; 2]) d.
Proof.
  destruct init_basis_partition as [Hret Hpart].
  assert (H2 : 1 <= 2) by lia.
  split; [exact H2|].
  assert (Hrun : FockBasis.init_basis (basis_of 1) 2 initial_globals
                 = ({| BITS := 2 |}, basis_of 2, Ok tt)) by reflexivity.
  split; [exact Hrun|].
  destruct (Hpart _ _ _ _ _ Hrun) as (d & Hd & _ & _ & Hperm & _).
  exists d. split; [exact Hd|]. split; [exact Hperm|].
  injection Hd as <-. right. left. reflexivity.
Defined.


Lemma get_sector_basis_of (N n_up n_dn : Z) :
  0 <= n_up <= N -> 0 <= n_dn <= N ->
  FockBasis.get_sector (basis_of N) (Some n_up) (Some n_dn) None
  = Ok (sector_of N n_up n_dn).
Proof.
  intros Hup Hdn. unfold FockBasis.get_sector.
  rewrite !get_spinstates_basis_of, !contains_basis_of by lia.
  replace ((0 <=? n_up) && (n_up <=? N)) with true by (symmetry; lia).
  replace ((0 <=? n_dn) && (n_dn <=? N)) with true by (symmetry; lia).
  reflexivity.
Qed.

(** C7.  On an initialised basis with fillings in [0, N], [get_next_sector]
    adds [delta] to the filling chosen by [sigma] (the up filling when
    [sigma == UP], the down filling otherwise); it returns the sector of
    the shifted fillings when the shifted one lies in [0, N] and [None]
    when it does not.  For two sites, from (1, 1) with [sigma = UP] and
    [delta = 1] the result is the sector (2, 1), from (2, 1) it is [None]. *)
Theorem get_next_sector_spec :
  (forall (b : FockBasis.t) (N n_up n_dn sigma delta : Z),
      initialized b N -> 0 <= n_up <= N -> 0 <= n_dn <= N ->
      let n_up' := if sigma =? UP then n_up + delta else n_up in
      let n_dn' := if sigma =? UP then n_dn else n_dn + delta in
      FockBasis.get_next_sector b (Some n_up) (Some n_dn) None sigma delta
      = if (0 <=? n_up') && (n_up' <=? N) && (0 <=? n_dn') && (n_dn' <=? N)
        then Ok (Some (sector_of N n_up' n_dn'))
        else Ok None)
  /\ (forall (g g' : globals) (b : FockBasis.t),
         FockBasis.init 2 g = (g', Ok b) ->
         FockBasis.get_next_sector b (Some 1) (Some 1) None UP 1
         = Ok (Some (BasisSector.mk 2 (Some 2) (Some 1) [3] [1; 2]))
         /\ FockBasis.get_next_sector b (Some 2) (Some 1) None UP 1 = Ok None).
Proof.
  split.
  - intros b N n_up n_dn sigma delta Hinit Hup Hdn n_up' n_dn'.
    apply initialized_inv in Hinit. destruct Hinit as [HN ->].
    unfold FockBasis.get_next_sector. cbn [iadd].
    assert (Hshift :
              (if sigma =? UP
               then u <- Ok (Some (n_up + delta)) ;; Ok (u, Some n_dn)
               else d <- Ok (Some (n_dn + delta)) ;; Ok (Some n_up, d))
              = Ok (Some n_up', Some n_dn')).
    { subst n_up' n_dn'. destruct (sigma =? UP); reflexivity. }
    rewrite Hshift. cbn [bind].
    rewrite !contains_basis_of by lia.
    destruct ((0 <=? n_up') && (n_up' <=? N)) eqn:Eup; cbn [negb orb andb];
      [|reflexivity].
    destruct ((0 <=? n_dn') && (n_dn' <=? N)) eqn:Edn; cbn [negb orb andb];
      [|reflexivity].
    apply andb_true_iff in Eup, Edn. rewrite !Z.leb_le in Eup, Edn.
    now rewrite get_sector_basis_of by lia.
  - intros g g' b H. injection H as _ <-. split; reflexivity.
Qed.

Lemma initialized_two : initialized (basis_of 2) 2.
Proof.
  exists (basis_of 2), initial_globals, {| BITS := 2 |}. reflexivity.
Defined.

Lemma get_next_sector_spec_witness :
  initialized (basis_of 2) 2 /\ 0 <= 1 <= 2
  /\ FockBasis.get_next_sector (basis_of 2) (Some 1) (Some 1) None UP 1
     = Ok (Some (sector_of 2 2 1))
  /\ FockBasis.get_next_sector (basis_of 2) (Some 0) (Some 1) None DN (-2)
     = Ok None.
Proof.
  destruct get_next_sector_spec as [Hgen _].
  assert (H0 : 0 <= 0 <= 2) by lia.
  assert (H1 : 0 <= 1 <= 2) by lia.
  split; [exact initialized_two|]. split; [exact H1|]. split.
  - exact (Hgen (basis_of 2) 2 1 1 UP 1 initialized_two H1 H1).
  - exact (Hgen (basis_of 2) 2 0 1 DN (-2) initialized_two H0 H1).
Defined.


Lemma contains_not_a_key (b : FockBasis.t) (n : option Z) :
  not_a_key b n -> contains (FockBasis.fillings b) n = false.
Proof.
  destruct n as [k|]; simpl; [|reflexivity].
  intros Hk. apply not_true_is_false. now rewrite existsb_eqb_In.
Qed.

(** C8.  On an initialised basis the fillings are exactly [0 .. N];
    [get_spinstates] with any other filling, [None] included, returns the
    whole enumeration without raising, and [get_sector] with such fillings
    builds the sector over the whole enumeration for that species. *)
Theorem get_spinstates_fallback (b : FockBasis.t) (N : Z)
        (Hinit : initialized b N) :
  (forall k, In k (FockBasis.fillings b) <-> 0 <= k <= N)
  /\ FockBasis._spinstates b = range (2 ^ N)
  /\ (forall n, not_a_key b n ->
        FockBasis.get_spinstates b n = Ok (FockBasis._spinstates b))
  /\ (forall n_up n_dn,
        not_a_key b n_up -> not_a_key b n_dn ->
        FockBasis.get_sector b n_up n_dn None
        = Ok (BasisSector.mk N n_up n_dn
                             (FockBasis._spinstates b) (FockBasis._spinstates b)))
  /\ (forall n_up n_dn,
        not_a_key b n_up ->
        exists dn_states,
          FockBasis.get_spinstates b n_dn = Ok dn_states
          /\ FockBasis.get_sector b n_up n_dn None
             = Ok (BasisSector.mk N n_up n_dn (FockBasis._spinstates b) dn_states))
  /\ (forall n_up n_dn,
        not_a_key b n_dn ->
        exists up_states,
          FockBasis.get_spinstates b n_up = Ok up_states
          /\ FockBasis.get_sector b n_up n_dn None
             = Ok (BasisSector.mk N n_up n_dn up_states (FockBasis._spinstates b))).
Proof.
  apply initialized_inv in Hinit. destruct Hinit as [HN ->].
  assert (H0 : 0 <= N) by lia.
  assert (Hget : forall n, not_a_key (basis_of N) n ->
                   FockBasis.get_spinstates (basis_of N) n = Ok (range (2 ^ N))).
  { intros n Hn. rewrite get_spinstates_basis_of by assumption.
    now rewrite contains_not_a_key. }
  assert (Hsec : forall n_up n_dn,
             FockBasis.get_sector (basis_of N) n_up n_dn None
             = (up_states <- FockBasis.get_spinstates (basis_of N) n_up ;;
                dn_states <- FockBasis.get_spinstates (basis_of N) n_dn ;;
                Ok (BasisSector.mk N n_up n_dn up_states dn_states))).
  { intros [u|] [d|]; reflexivity. }
  split; [intros k; now apply fillings_basis_of|].
  split; [reflexivity|].
  split; [exact Hget|].
  cbn [basis_of FockBasis._spinstates].
  split; [|split].
  - intros n_up n_dn Hup Hdn. now rewrite Hsec, !Hget.
  - intros n_up n_dn Hup. rewrite Hsec, (Hget n_up Hup).
    rewrite get_spinstates_basis_of by assumption. eauto.
  - intros n_up n_dn Hdn. rewrite Hsec, (Hget n_dn Hdn).
    rewrite get_spinstates_basis_of by assumption. eauto.
Qed.

Lemma get_spinstates_fallback_witness :
  initialized (basis_of 2) 2
  /\ FockBasis.get_spinstates (basis_of 2) (Some 3) = Ok [0; 1; 2; 3]
  /\ FockBasis.get_sector (basis_of 2) None None None
     = Ok (BasisSector.mk 2 None None [0; 1; 2; 3] [0; 1; 2; 3]).
Proof.
  destruct (get_spinstates_fallback initialized_two)
    as (Hfill & _ & Hget & Hsec & _).
  split; [exact initialized_two|]. split.
  - apply (Hget (Some 3)). intros Hin. apply Hfill in Hin. lia.
  - apply (Hsec None None); exact I.
Defined.


(** C10.  [FockBasis(0)] skips [init_basis]: the globals are untouched and
    [_sectors] is still the class.  Every [get_spinstates] then raises
    [TypeError], and so does every [get_spin_sector] and every
    [get_sector] that looks up spin states (all calls but the pass-through
    of a given sector with both fillings [None]).  [init_basis] with a
    positive site count makes the lookups return; with any other count it
    raises and leaves the object as it was. *)
Theorem default_basis_unusable :
  (forall g, FockBasis.init 0 g = (g, Ok fresh_basis))
  /\ (forall n, FockBasis.get_spinstates fresh_basis n = Raise TypeError)
  /\ (forall n sigma,
         FockBasis.get_spin_sector fresh_basis n sigma = Raise TypeError)
  /\ (forall n_up n_dn,
         FockBasis.get_sector fresh_basis n_up n_dn None = Raise TypeError)
  /\ (forall n_up n_dn s,
         n_up <> None \/ n_dn <> None ->
         FockBasis.get_sector fresh_basis n_up n_dn (Some s) = Raise TypeError)
  /\ (forall s, FockBasis.get_sector fresh_basis None None (Some s) = Ok s)
  /\ (forall N g,
         1 <= N ->
         exists b,
           FockBasis.init_basis fresh_basis N g = ({| BITS := N |}, b, Ok tt)
           /\ (forall n, exists states,
                  FockBasis.get_spinstates b n = Ok states /\ states <> []))
  /\ (forall N g,
         N <= 0 ->
         FockBasis.init_basis fresh_basis N g
         = ({| BITS := N |}, fresh_basis, Raise ValueError)).
Proof.
  split; [reflexivity|].
  split; [reflexivity|].
  split; [reflexivity|].
  split; [intros [u|] [d|]; reflexivity|].
  split.
  { intros [u|] [d|] s [H|H]; try reflexivity; now contradiction H. }
  split; [reflexivity|].
  split.
  - intros N g HN. exists (basis_of N).
    split; [now apply init_basis_pos|].
    assert (Hne : range (2 ^ N) <> []).
    { intros Heq. assert (Hin : In 0 (range (2 ^ N))).
      { apply range_In. assert (0 < 2 ^ N) by (apply Z.pow_pos_nonneg; lia). lia. }
      rewrite Heq in Hin. contradiction. }
    intros n. rewrite get_spinstates_basis_of by lia.
    eexists. split; [reflexivity|].
    destruct (contains _ n) eqn:Hc; [|assumption].
    destruct n as [k|]; [|assumption].
    rewrite contains_basis_of in Hc by lia.
    apply andb_true_iff in Hc. rewrite !Z.leb_le in Hc.
    assert (HinK : In k (FockBasis.fillings (basis_of N)))
      by (apply fillings_basis_of; lia).
    apply group_keys_In in HinK. destruct HinK as (s & Hs & Hk).
    intros Heq.
    assert (Hin : In s (bucket N k))
      by (apply filter_In; split; [assumption | now apply Z.eqb_eq]).
    rewrite Heq in Hin. contradiction.
  - intros N g HN. now apply init_basis_nonpos.
Qed.

Lemma default_basis_unusable_witness :
  FockBasis.get_sector fresh_basis (Some 1) None
                       (Some (BasisSector.mk 2 (Some 1) (Some 1) [1; 2] [1; 2]))
  = Raise TypeError
  /\ 1 <= 2
  /\ exists b,
       FockBasis.init_basis fresh_basis 2 initial_globals
       = ({| BITS := 2 |}, b, Ok tt)
       /\ (forall n, exists states,
              FockBasis.get_spinstates b n = Ok states /\ states <> []).
Proof.
  destruct default_basis_unusable as (_ & _ & _ & _ & Hsec & _ & Hpos & _).
  assert (H2 : 1 <= 2) by lia.
  split.
  - apply Hsec. left. discriminate.
  - split; [exact H2|]. exact (Hpos 2 initial_globals H2).
Defined.

(** * Further properties of the module *)

(** ** Flipping, testing and composing single sites *)

Lemma flip_unfold (self bit : Z) :
  0 <= bit -> Binary.flip self bit = Ok (Z.lxor self (2 ^ bit)).
Proof.
  intros Hbit. unfold Binary.flip. now rewrite lshift_one.
Qed.

(** [flip] is its own inverse, and whichever of [create] and [annihilate]
    applies to a site returns the flipped state while the other returns
    [None]. *)
Theorem flip_involutive_and_selects (s i : Z) (Hi : 0 <= i) :
  exists s',
    Binary.flip s i = Ok s'
    /\ Binary.flip s' i = Ok s
    /\ Z.testbit s' i = negb (Z.testbit s i)
    /\ (if Z.testbit s i
        then annihilate s i = Ok (Some s') /\ create s i = Ok None
        else create s i = Ok (Some s') /\ annihilate s i = Ok None).
Proof.
  exists (Z.lxor s (2 ^ i)).
  rewrite !flip_unfold, create_unfold, annihilate_unfold by assumption.
  split; [reflexivity|]. split.
  - now rewrite Z.lxor_assoc, Z.lxor_nilpotent, Z.lxor_0_r.
  - split.
    + now rewrite lxor_mask_bits, Z.eqb_refl by assumption.
    + destruct (Z.testbit s i); split; reflexivity.
Qed.

Lemma flip_involutive_and_selects_witness :
  0 <= 2
  /\ exists s',
       Binary.flip 5 2 = Ok s'
       /\ Binary.flip s' 2 = Ok 5
       /\ Z.testbit s' 2 = negb (Z.testbit 5 2)
       /\ (if Z.testbit 5 2
           then annihilate 5 2 = Ok (Some s') /\ create 5 2 = Ok None
           else create 5 2 = Ok (Some s') /\ annihilate 5 2 = Ok None).
Proof.
  assert (H : 0 <= 2) by lia.
  split; [exact H|]. exact (@flip_involutive_and_selects 5 2 H).
Defined.

(** [occ] and [get] return the mask of the site, [2^pos], when the site is
    occupied and [0] when it is vacant: a truth value, not a 0/1 digit. *)
Theorem occ_is_mask (s pos : Z) (Hpos : 0 <= pos) :
  SpinState.occ s pos = Ok (if Z.testbit s pos then 2 ^ pos else 0)
  /\ Binary.get s pos = SpinState.occ s pos
  /\ (forall v, SpinState.occ s pos = Ok v -> truthy v = Z.testbit s pos).
Proof.
  assert (Hocc : SpinState.occ s pos
                 = Ok (if Z.testbit s pos then 2 ^ pos else 0)).
  { unfold SpinState.occ. rewrite lshift_one by assumption. cbn [bind].
    now rewrite Z.land_comm, land_mask. }
  split; [exact Hocc|]. split; [reflexivity|].
  intros v Hv. rewrite Hocc in Hv. injection Hv as <-.
  rewrite <- land_mask by assumption. now apply truthy_mask.
Qed.

Lemma occ_is_mask_witness :
  0 <= 2 /\ SpinState.occ 5 2 = Ok 4 /\ SpinState.occ 5 1 = Ok 0.
Proof.
  assert (H2 : 0 <= 2) by lia. assert (H1 : 0 <= 1) by lia.
  split; [exact H2|]. split.
  - exact (proj1 (@occ_is_mask 5 2 H2)).
  - exact (proj1 (@occ_is_mask 5 1 H1)).
Defined.

(** A negative site index is not answered with the [None] sentinel: the
    shift raises [ValueError] in every operation that builds the mask. *)
Theorem negative_site_raises (s pos : Z) (Hneg : pos < 0) :
  create s pos = Raise ValueError
  /\ annihilate s pos = Raise ValueError
  /\ SpinState.create s pos = Raise ValueError
  /\ SpinState.annihilate s pos = Raise ValueError
  /\ SpinState.occ s pos = Raise ValueError
  /\ Binary.get s pos = Raise ValueError
  /\ Binary.flip s pos = Raise ValueError.
Proof.
  unfold SpinState.create, SpinState.annihilate, SpinState.occ,
    Binary.get, Binary.flip, create, annihilate.
  rewrite (lshift_neg 1 Hneg). repeat split; reflexivity.
Qed.

Lemma negative_site_raises_witness :
  -1 < 0 /\ create 3 (-1) = Raise ValueError.
Proof.
  assert (H : -1 < 0) by lia.
  split; [exact H|]. exact (proj1 (@negative_site_raises 3 (-1) H)).
Defined.

(** The methods of [SpinState] return the new state where the functions
    return one and raise [TypeError] where the functions return [None]. *)
Theorem SpinState_methods_outcome (s pos : Z) (Hpos : 0 <= pos) :
  SpinState.create s pos
  = (if Z.testbit s pos then Raise TypeError else Ok (Z.lxor s (2 ^ pos)))
  /\ SpinState.annihilate s pos
     = (if Z.testbit s pos then Ok (Z.lxor s (2 ^ pos)) else Raise TypeError).
Proof.
  unfold SpinState.create, SpinState.annihilate.
  rewrite create_unfold, annihilate_unfold by assumption.
  destruct (Z.testbit s pos); split; reflexivity.
Qed.

Lemma SpinState_methods_outcome_witness :
  0 <= 1
  /\ SpinState.create 5 1 = Ok 7
  /\ SpinState.annihilate 5 1 = Raise TypeError.
Proof.
  assert (H : 0 <= 1) by lia.
  split; [exact H|]. exact (@SpinState_methods_outcome 5 1 H).
Defined.

Lemma annihilate_some_inv (num pos new : Z) :
  annihilate num pos = Ok (Some new) ->
  0 <= pos /\ Z.testbit num pos = true /\ new = Z.lxor num (2 ^ pos).
Proof.
  intros H. destruct (Z.lt_ge_cases pos 0) as [Hneg|Hpos].
  - unfold annihilate in H. rewrite lshift_neg in H by assumption.
    discriminate.
  - rewrite annihilate_unfold in H by assumption.
    destruct (Z.testbit num pos); [|discriminate].
    injection H as <-. auto.
Qed.

(** Creating after a successful annihilation on the same site restores
    the state. *)
Theorem create_annihilate_roundtrip (s i s' : Z) :
  annihilate s i = Ok (Some s') -> create s' i = Ok (Some s).
Proof.
  intros H. apply annihilate_some_inv in H. destruct H as (Hi & Hbit & ->).
  rewrite create_unfold by assumption.
  rewrite lxor_mask_bits, Z.eqb_refl, Hbit by assumption. simpl.
  now rewrite Z.lxor_assoc, Z.lxor_nilpotent, Z.lxor_0_r.
Qed.

Lemma create_annihilate_roundtrip_witness :
  annihilate 7 1 = Ok (Some 5) /\ create 5 1 = Ok (Some 7).
Proof.
  split; [reflexivity | apply (@create_annihilate_roundtrip 7 1 5); reflexivity].
Defined.

(** Creations on two sites commute: if creating on [i] and then on [j]
    succeeds, so does creating on [j] and then on [i], with the same final
    state; and the two sites differ. *)
Theorem create_commutes (s i j a b : Z) :
  create s i = Ok (Some a) -> create a j = Ok (Some b) ->
  i <> j
  /\ exists c, create s j = Ok (Some c) /\ create c i = Ok (Some b).
Proof.
  intros Hi Hj.
  apply create_some_inv in Hi. destruct Hi as (Hi0 & Hbi & ->).
  apply create_some_inv in Hj. destruct Hj as (Hj0 & Hbj & ->).
  rewrite lxor_mask_bits in Hbj by assumption.
  destruct (Z.eqb_spec j i) as [->|Hne].
  - rewrite Hbi in Hbj. discriminate.
  - split; [congruence|].
    exists (Z.lxor s (2 ^ j)). rewrite !create_unfold by assumption.
    rewrite Hbj. split; [reflexivity|].
    rewrite lxor_mask_bits by assumption.
    destruct (Z.eqb_spec i j) as [->|_]; [contradiction|].
    rewrite Hbi. do 2 f_equal.
    rewrite !Z.lxor_assoc. f_equal. apply Z.lxor_comm.
Qed.

Lemma create_commutes_witness :
  create 1 1 = Ok (Some 3) /\ create 3 2 = Ok (Some 7)
  /\ 1 <> 2
  /\ exists c, create 1 2 = Ok (Some c) /\ create c 1 = Ok (Some 7).
Proof.
  assert (H1 : create 1 1 = Ok (Some 3)) by reflexivity.
  assert (H2 : create 3 2 = Ok (Some 7)) by reflexivity.
  split; [exact H1|]. split; [exact H2|].
  exact (@create_commutes 1 1 2 3 7 H1 H2).
Defined.

(** ** The population count as a count of occupied sites *)

Lemma range_succ (n : nat) :
  range (Z.of_nat (S n)) = 0 :: map Z.succ (range (Z.of_nat n)).
Proof.
  unfold range. rewrite !Nat2Z.id. simpl. f_equal.
  rewrite <- seq_shift, !map_map. apply map_ext. intros k. lia.
Qed.

Lemma filter_map_length {A B : Type} (p : B -> bool) (f : A -> B) (l : list A) :
  List.length (filter p (map f l)) = List.length (filter (fun x => p (f x)) l).
Proof.
  induction l as [|a l IH]; simpl; [reflexivity|].
  destruct (p (f a)); simpl; now rewrite IH.
Qed.

Lemma div2_lt_pow2 (N : nat) (s : Z) :
  0 <= s < 2 ^ Z.of_nat (S N) -> 0 <= Z.div2 s < 2 ^ Z.of_nat N.
Proof.
  intros Hs. rewrite Nat2Z.inj_succ, Z.pow_succ_r in Hs by lia.
  rewrite Z.div2_div. split.
  - apply Z.div_pos; lia.
  - apply Z.div_lt_upper_bound; lia.
Qed.

(** [SpinState.n], computed by counting the character "1" in [bin(s)],
    is the number of sites of [range(N)] whose bit is set in [s]. *)
Theorem n_counts_occupied_sites (N : nat) :
  forall s : Z,
    0 <= s < 2 ^ Z.of_nat N ->
    SpinState.n s
    = Z.of_nat (List.length (filter (Z.testbit s) (range (Z.of_nat N)))).
Proof.
  induction N as [|N IH]; intros s Hs.
  - change (2 ^ Z.of_nat 0) with 1 in Hs. replace s with 0 by lia. reflexivity.
  - rewrite range_succ. cbn [filter]. rewrite n_div2 by lia.
    rewrite (IH (Z.div2 s)) by now apply div2_lt_pow2.
    assert (Hext : List.length (filter (Z.testbit s)
                                  (map Z.succ (range (Z.of_nat N))))
                   = List.length (filter (Z.testbit (Z.div2 s))
                                    (range (Z.of_nat N)))).
    { rewrite filter_map_length. f_equal. apply filter_ext_in.
      intros i Hi. apply range_In in Hi.
      rewrite Z.div2_div, Z.div2_bits by lia. reflexivity. }
    rewrite Z.bit0_odd. destruct (Z.odd s); cbn [Z.b2z List.length];
      rewrite Hext; lia.
Qed.

Lemma n_counts_occupied_sites_witness :
  0 <= 5 < 2 ^ Z.of_nat 3
  /\ SpinState.n 5
     = Z.of_nat (List.length (filter (Z.testbit 5) (range (Z.of_nat 3)))).
Proof.
  assert (H : 0 <= 5 < 2 ^ Z.of_nat 3) by (simpl; lia).
  split; [exact H|]. exact (@n_counts_occupied_sites 3 5 H).
Defined.

Lemma n_zero_iff (N : nat) :
  forall s : Z, 0 <= s < 2 ^ Z.of_nat N -> (SpinState.n s = 0 <-> s = 0).
Proof.
  induction N as [|N IH]; intros s Hs.
  - change (2 ^ Z.of_nat 0) with 1 in Hs. split; [lia | now intros ->].
  - pose proof (div2_lt_pow2 _ Hs) as Hd.
    rewrite n_div2 by lia. pose proof (n_nonneg (Z.div2 s)) as Hn.
    pose proof (Z.div2_odd s) as Hds. specialize (IH _ Hd).
    destruct (Z.odd s); cbn [Z.b2z] in *.
    + split; lia.
    + rewrite Z.add_0_r. rewrite IH. lia.
Qed.

Lemma n_full_iff (N : nat) :
  forall s : Z,
    0 <= s < 2 ^ Z.of_nat N ->
    (SpinState.n s = Z.of_nat N <-> s = 2 ^ Z.of_nat N - 1).
Proof.
  induction N as [|N IH]; intros s Hs.
  - change (2 ^ Z.of_nat 0) with 1 in *. replace s with 0 by lia.
    split; reflexivity.
  - pose proof (div2_lt_pow2 _ Hs) as Hd.
    rewrite n_div2 by lia. pose proof (n_le_width _ Hd) as Hn.
    pose proof (Z.div2_odd s) as Hds. specialize (IH _ Hd).
    rewrite Nat2Z.inj_succ, Z.pow_succ_r by lia.
    destruct (Z.odd s); cbn [Z.b2z] in *.
    + split; [intros H; assert (Hf : SpinState.n (Z.div2 s) = Z.of_nat N) by lia;
              apply IH in Hf; lia
             | intros H; assert (Hf : Z.div2 s = 2 ^ Z.of_nat N - 1) by lia;
               apply IH in Hf; lia].
    + split; lia.
Qed.

(** A state on [N] sites holds between [0] and [N] particles; only the
    empty state [0] holds none and only the full state [2^N - 1] holds
    [N]. *)
Theorem n_bounds (N s : Z) (HN : 0 <= N) (Hs : 0 <= s < 2 ^ N) :
  0 <= SpinState.n s <= N
  /\ (SpinState.n s = 0 <-> s = 0)
  /\ (SpinState.n s = N <-> s = 2 ^ N - 1).
Proof.
  rewrite <- (Z2Nat.id N HN) in *.
  split; [split; [apply n_nonneg | now apply n_le_width]|].
  split; [now apply n_zero_iff with (N := Z.to_nat N) | now apply n_full_iff].
Qed.

Lemma n_bounds_witness :
  0 <= 3 /\ 0 <= 7 < 2 ^ 3
  /\ 0 <= SpinState.n 7 <= 3
  /\ (SpinState.n 7 = 0 <-> 7 = 0)
  /\ (SpinState.n 7 = 3 <-> 7 = 2 ^ 3 - 1).
Proof.
  assert (HN : 0 <= 3) by lia.
  assert (Hs : 0 <= 7 < 2 ^ 3) by (simpl; lia).
  split; [exact HN|]. split; [exact Hs|]. exact (@n_bounds 3 7 HN Hs).
Defined.

(** ** The catalogue of fillings and the walk over all sectors *)

Lemma range_app (a b : Z) :
  0 <= a -> 0 <= b -> range (a + b) = range a ++ map (Z.add a) (range b).
Proof.
  intros Ha Hb. unfold range.
  rewrite Z2Nat.inj_add, seq_app, map_app by assumption. f_equal.
  rewrite map_map, <- (Nat.add_0_r (Z.to_nat a)) at 1.
  change (0 + (Z.to_nat a + 0))%nat with (Z.to_nat a + 0)%nat.
  rewrite Nat.add_comm.
  revert Ha. generalize (Z.to_nat b) 0%nat. clear Hb b.
  intros len. induction len as [|len IH]; intros start Ha; [reflexivity|].
  simpl. f_equal.
  - lia.
  - rewrite <- (IH (S start) Ha). reflexivity.
Qed.

Lemma range_snoc (a : Z) : 0 <= a -> range (a + 1) = range a ++ [a].
Proof.
  intros Ha. rewrite range_app by lia. simpl. now rewrite Z.add_0_r.
Qed.

Lemma keys_append (d : dict) (k v : Z) :
  keys (dict_append d k v)
  = if existsb (Z.eqb k) (keys d) then keys d else keys d ++ [k].
Proof.
  induction d as [|[k0 b] d IH]; simpl; [reflexivity|].
  rewrite (Z.eqb_sym k k0).
  destruct (Z.eqb_spec k0 k) as [->|Hne]; simpl; [reflexivity|].
  change (map fst (dict_append d k v)) with (keys (dict_append d k v)).
  rewrite IH. now destruct (existsb (Z.eqb k) (keys d)).
Qed.

Section GroupingOrder.

Variable key : Z -> Z.

Lemma group_app (l1 l2 : list Z) :
  group key (l1 ++ l2)
  = fold_left (fun d state => dict_append d (key state) state) l2 (group key l1).
Proof.
  unfold group. apply fold_left_app.
Qed.

(** States whose key is already bound add no key. *)
Lemma fold_keys_stable (l : list Z) :
  forall d : dict,
    (forall s, In s l -> In (key s) (keys d)) ->
    keys (fold_left (fun d state => dict_append d (key state) state) l d)
    = keys d.
Proof.
  induction l as [|x l IH]; intros d Hin; [reflexivity|].
  cbn [fold_left].
  assert (Hk : keys (dict_append d (key x) x) = keys d).
  { rewrite keys_append.
    replace (existsb (Z.eqb (key x)) (keys d)) with true; [reflexivity|].
    symmetry. apply existsb_eqb_In, Hin. now left. }
  rewrite IH; [exact Hk|].
  intros s Hs. rewrite Hk. apply Hin. now right.
Qed.

End GroupingOrder.

Lemma group_keys_range (N : nat) :
  keys (group SpinState.n (range (2 ^ Z.of_nat N))) = range (Z.of_nat N + 1).
Proof.
  induction N as [|N IH]; [reflexivity|].
  assert (Hp : 0 < 2 ^ Z.of_nat N) by (apply Z.pow_pos_nonneg; lia).
  assert (Hpow : 2 ^ Z.of_nat (S N) = 2 ^ Z.of_nat N + (2 ^ Z.of_nat N - 1) + 1)
    by (rewrite Nat2Z.inj_succ, Z.pow_succ_r; lia).
  rewrite Hpow at 1.
  rewrite range_snoc, range_app by lia.
  rewrite group_snoc, group_app, keys_append, fold_keys_stable.
  - rewrite IH.
    replace (2 ^ Z.of_nat N + (2 ^ Z.of_nat N - 1))
      with (2 ^ Z.of_nat (S N) - 1) by lia.
    rewrite n_ones.
    replace (existsb (Z.eqb (Z.of_nat (S N))) (range (Z.of_nat N + 1)))
      with false.
    + replace (Z.of_nat (S N)) with (Z.of_nat N + 1) by lia.
      now rewrite <- range_snoc by lia.
    + symmetry. apply not_true_is_false. rewrite existsb_eqb_In, range_In. lia.
  - intros s Hs. rewrite IH. apply in_map_iff in Hs.
    destruct Hs as (s' & <- & Hs'). apply range_In in Hs'. apply range_In.
    assert (Hlt : 0 <= 2 ^ Z.of_nat N + s' < 2 ^ Z.of_nat (S N)) by lia.
    pose proof (n_nonneg (2 ^ Z.of_nat N + s')) as H0.
    pose proof (n_le_width _ Hlt) as Hle.
    pose proof (n_full_iff _ Hlt) as Hfull.
    destruct (Z.eq_dec (SpinState.n (2 ^ Z.of_nat N + s')) (Z.of_nat (S N)))
      as [Heq|Hne]; [apply Hfull in Heq; lia | lia].
Qed.

Lemma fillings_basis_of_range (N : Z) :
  0 <= N -> FockBasis.fillings (basis_of N) = range (N + 1).
Proof.
  intros HN. unfold FockBasis.fillings, basis_of. cbn [FockBasis._fillings].
  rewrite <- (Z2Nat.id N HN). apply group_keys_range.
Qed.

(** After [init_basis(N)] the list of fillings is [0, 1, ..., N] in this
    order: a filling is first met at the state [2^k - 1], and these come in
    increasing order. *)
Theorem fillings_ascending (b : FockBasis.t) (N : Z) (Hinit : initialized b N) :
  FockBasis.fillings b = range (N + 1)
  /\ Z.of_nat (List.length (FockBasis.fillings b)) = N + 1
  /\ StronglySorted Z.lt (FockBasis.fillings b).
Proof.
  apply initialized_inv in Hinit. destruct Hinit as [HN ->].
  rewrite fillings_basis_of_range by lia.
  split; [reflexivity|]. split; [apply range_length; lia | apply range_sorted].
Qed.

Lemma fillings_ascending_witness :
  initialized (basis_of 2) 2
  /\ FockBasis.fillings (basis_of 2) = [0; 1; 2].
Proof.
  split; [exact initialized_two|].
  exact (proj1 (fillings_ascending initialized_two)).
Defined.

Lemma map_flat_map {A B C : Type} (f : B -> C) (g : A -> list B) (l : list A) :
  map f (flat_map g l) = flat_map (fun x => map f (g x)) l.
Proof.
  induction l as [|a l IH]; simpl; [reflexivity|].
  now rewrite map_app, IH.
Qed.

Lemma product_repeat_one {A : Type} (xs : list A) :
  product_repeat xs 1 = map (fun y => [y]) xs.
Proof.
  cbn [product_repeat].
  induction xs as [|y ys IH]; [reflexivity|].
  cbn [flat_map map app]. now f_equal.
Qed.

Lemma product_repeat_two {A : Type} (xs : list A) :
  product_repeat xs 2 = product_with (fun x y => [x; y]) xs xs.
Proof.
  unfold product_with, product.
  change (product_repeat xs 2)
    with (flat_map (fun x => map (cons x) (product_repeat xs 1)) xs).
  rewrite product_repeat_one, map_flat_map.
  apply flat_map_ext. intros x. now rewrite !map_map.
Qed.

Lemma product_In {A B : Type} (xs : list A) (ys : list B) (p : A * B) :
  In p (product xs ys) <-> In (fst p) xs /\ In (snd p) ys.
Proof.
  unfold product. rewrite in_flat_map. destruct p as [a b]. simpl. split.
  - intros (x & Hx & Hin). apply in_map_iff in Hin.
    destruct Hin as (y & [= -> ->] & Hy). auto.
  - intros [Ha Hb]. exists a. split; [assumption|].
    apply in_map_iff. eauto.
Qed.

Lemma mapM_map_ok {A B C : Type} (f : B -> result C) (g : A -> B) (h : A -> C)
      (l : list A) :
  (forall a, In a l -> f (g a) = Ok (h a)) ->
  mapM f (map g l) = Ok (map h l).
Proof.
  induction l as [|a l IH]; intros Hf; [reflexivity|].
  cbn [mapM map]. rewrite (Hf a) by now left. cbn [bind].
  rewrite IH by (intros x Hx; apply Hf; now right). reflexivity.
Qed.

Lemma iter_sectors_basis_of (N : Z) :
  0 <= N ->
  FockBasis.iter_sectors (basis_of N)
  = Ok (product_with (sector_of N) (range (N + 1)) (range (N + 1))).
Proof.
  intros HN. unfold FockBasis.iter_sectors, FockBasis.iter_fillings.
  change (2 <? 0) with false. cbn [bind].
  change (Z.to_nat 2) with 2%nat.
  change (FockBasis._fillings (basis_of N))
    with (FockBasis.fillings (basis_of N)).
  rewrite fillings_basis_of_range, product_repeat_two by assumption.
  unfold product_with.
  apply mapM_map_ok. intros [u d] Hp. apply product_In in Hp.
  cbn [fst snd] in *. destruct Hp as [Hu Hd].
  apply range_In in Hu, Hd. apply get_sector_basis_of; lia.
Qed.

(** On an initialised basis [iter_sectors] runs to its end without raising
    and yields [(N + 1)^2] sectors, up filling outermost: the sector at
    position [i * (N + 1) + j] has fillings [(i, j)]. *)
Theorem iter_sectors_spec (b : FockBasis.t) (N : Z) (Hinit : initialized b N) :
  exists sectors,
    FockBasis.iter_sectors b = Ok sectors
    /\ Z.of_nat (List.length sectors) = (N + 1) * (N + 1)
    /\ (forall i j,
           0 <= i <= N -> 0 <= j <= N ->
           nth_error sectors (Z.to_nat (i * (N + 1) + j))
           = Some (sector_of N i j))
    /\ (forall s, In s sectors ->
           exists i j, 0 <= i <= N /\ 0 <= j <= N /\ s = sector_of N i j).
Proof.
  apply initialized_inv in Hinit. destruct Hinit as [HN ->].
  eexists. split; [apply iter_sectors_basis_of; lia|].
  assert (Hlen : List.length (range (N + 1)) = Z.to_nat (N + 1)).
  { pose proof (@range_length (N + 1)). lia. }
  split; [|split].
  - rewrite product_with_length, Hlen. lia.
  - intros i j Hi Hj.
    replace (Z.to_nat (i * (N + 1) + j))
      with (Z.to_nat i * List.length (range (N + 1)) + Z.to_nat j)%nat
      by (rewrite Hlen; nia).
    apply product_with_nth.
    + rewrite range_nth by lia. f_equal. lia.
    + rewrite range_nth by lia. f_equal. lia.
  - intros s Hs. apply product_with_In in Hs.
    destruct Hs as (i & j & Hi & Hj & ->). apply range_In in Hi, Hj.
    exists i, j. repeat split; lia.
Qed.

Lemma iter_sectors_spec_witness :
  initialized (basis_of 2) 2
  /\ exists sectors,
       FockBasis.iter_sectors (basis_of 2) = Ok sectors
       /\ Z.of_nat (List.length sectors) = 9
       /\ nth_error sectors 5 = Some (sector_of 2 1 2).
Proof.
  split; [exact initialized_two|].
  destruct (iter_sectors_spec initialized_two) as (secs & Hrun & Hlen & Hnth & _).
  exists secs. split; [exact Hrun|]. split; [exact Hlen|].
  assert (H1 : 0 <= 1 <= 2) by lia. assert (H2 : 0 <= 2 <= 2) by lia.
  exact (Hnth 1 2 H1 H2).
Defined.

(** ** Sizes: binomial buckets, sectors that tile the full space *)

Lemma testbit_above (N s : Z) : 0 <= N -> 0 <= s < 2 ^ N -> Z.testbit s N = false.
Proof.
  intros HN Hs. apply Z.testbit_false; [assumption|].
  now rewrite Z.div_small.
Qed.

Lemma n_add_high (N s : Z) :
  0 <= N -> 0 <= s < 2 ^ N -> SpinState.n (2 ^ N + s) = SpinState.n s + 1.
Proof.
  intros HN Hs. pose proof (testbit_above HN Hs) as Hbit.
  assert (Hadd : 2 ^ N + s = Z.lxor s (2 ^ N)).
  { rewrite Z.lxor_comm. apply Z.add_nocarry_lxor.
    now rewrite land_mask, Hbit by assumption. }
  rewrite Hadd, n_lxor_mask, Hbit by lia. reflexivity.
Qed.

Lemma range_double (N : nat) :
  range (2 ^ Z.of_nat (S N))
  = range (2 ^ Z.of_nat N) ++ map (Z.add (2 ^ Z.of_nat N)) (range (2 ^ Z.of_nat N)).
Proof.
  assert (Hp : 0 < 2 ^ Z.of_nat N) by (apply Z.pow_pos_nonneg; lia).
  rewrite <- range_app by lia. f_equal.
  rewrite Nat2Z.inj_succ, Z.pow_succ_r; lia.
Qed.

Lemma binom_zero (n : nat) : binom n 0 = 1%nat.
Proof.
  now destruct n.
Qed.

Lemma bucket_length (N : nat) :
  forall k : Z,
    List.length (bucket (Z.of_nat N) k)
    = if k <? 0 then 0%nat else binom N (Z.to_nat k).
Proof.
  induction N as [|N IH]; intros k.
  - unfold bucket. change (range (2 ^ Z.of_nat 0)) with [0].
    cbn [filter]. change (SpinState.n 0) with 0.
    destruct (Z.eqb_spec 0 k) as [<-|Hne]; [reflexivity|].
    destruct (Z.ltb_spec k 0); [reflexivity|].
    destruct (Z.to_nat k) eqn:Hk; [lia | reflexivity].
  - unfold bucket. rewrite range_double, filter_app, length_app.
    rewrite filter_map_length.
    rewrite (filter_ext_in
               (fun s => SpinState.n (2 ^ Z.of_nat N + s) =? k)
               (fun s => SpinState.n s =? k - 1)).
    2:{ intros s Hs. apply range_In in Hs.
        rewrite n_add_high by lia.
        destruct (Z.eqb_spec (SpinState.n s + 1) k);
          destruct (Z.eqb_spec (SpinState.n s) (k - 1)); lia || reflexivity. }
    fold (bucket (Z.of_nat N) k). fold (bucket (Z.of_nat N) (k - 1)).
    rewrite !IH.
    destruct (Z.ltb_spec k 0) as [Hneg|Hk].
    + destruct (Z.ltb_spec (k - 1) 0); [reflexivity | lia].
    + destruct (Z.ltb_spec (k - 1) 0) as [Hk0|Hk1].
      * replace k with 0 by lia. change (Z.to_nat 0) with 0%nat.
        rewrite !binom_zero. lia.
      * replace (Z.to_nat k) with (S (Z.to_nat (k - 1))) by lia.
        cbn [binom]. lia.
Qed.

Lemma bucket_In (N k s : Z) :
  In s (bucket N k) <-> 0 <= s < 2 ^ N /\ SpinState.n s = k.
Proof.
  unfold bucket. now rewrite filter_In, range_In, Z.eqb_eq.
Qed.

(** [get_spin_sector] with a filling [n] in [0, N] returns the sector of
    the [C(N, n)] states on [N] sites that hold [n] particles, in
    ascending order. *)
Theorem get_spin_sector_spec (b : FockBasis.t) (N n sigma : Z)
        (Hinit : initialized b N) (Hn : 0 <= n <= N) :
  exists sector,
    FockBasis.get_spin_sector b (Some n) sigma = Ok sector
    /\ SpinSector.num_sites sector = N
    /\ SpinSector.n sector = Some n
    /\ SpinSector.sigma sector = sigma
    /\ (forall s, In s (SpinSector.states sector)
                  <-> 0 <= s < 2 ^ N /\ SpinState.n s = n)
    /\ StronglySorted Z.lt (SpinSector.states sector)
    /\ SpinSector.size sector = Z.of_nat (binom (Z.to_nat N) (Z.to_nat n)).
Proof.
  apply initialized_inv in Hinit. destruct Hinit as [HN ->].
  exists (SpinSector.mk N (Some n) sigma (bucket N n)).
  split.
  { unfold FockBasis.get_spin_sector.
    rewrite get_spinstates_basis_of, contains_basis_of by lia.
    replace ((0 <=? n) && (n <=? N)) with true by (symmetry; lia).
    reflexivity. }
  do 3 (split; [reflexivity|]).
  split; [intros s; apply bucket_In|].
  split; [apply sorted_filter, range_sorted|].
  unfold SpinSector.size. cbn [SpinSector.spinstates]. f_equal.
  rewrite <- (Z2Nat.id N) at 1 by lia. rewrite bucket_length.
  destruct (Z.ltb_spec n 0); [lia | reflexivity].
Qed.

Lemma get_spin_sector_spec_witness :
  initialized (basis_of 2) 2 /\ 0 <= 1 <= 2
  /\ exists sector,
       FockBasis.get_spin_sector (basis_of 2) (Some 1) DN = Ok sector
       /\ SpinSector.states sector = [1; 2]
       /\ SpinSector.size sector = 2.
Proof.
  assert (H1 : 0 <= 1 <= 2) by lia.
  split; [exact initialized_two|]. split; [exact H1|].
  destruct (@get_spin_sector_spec (basis_of 2) 2 1 DN initialized_two H1)
    as (sec & Hget & _ & _ & _ & _ & _ & Hsize).
  exists sec. split; [exact Hget|].
  injection Hget as <-. split; [reflexivity | exact Hsize].
Defined.

(** [get_sector] with both fillings in [0, N] returns a sector of
    [C(N, n_up) * C(N, n_dn)] states, each list holding only states of its
    filling; no such sector is empty. *)
Theorem get_sector_size (b : FockBasis.t) (N n_up n_dn : Z)
        (Hinit : initialized b N) (Hup : 0 <= n_up <= N) (Hdn : 0 <= n_dn <= N) :
  exists sector,
    FockBasis.get_sector b (Some n_up) (Some n_dn) None = Ok sector
    /\ BasisSector.filling sector = (Some n_up, Some n_dn)
    /\ (forall s, In s (BasisSector.up_states sector) -> SpinState.n s = n_up)
    /\ (forall s, In s (BasisSector.dn_states sector) -> SpinState.n s = n_dn)
    /\ BasisSector.num_up_states sector
       = Z.of_nat (binom (Z.to_nat N) (Z.to_nat n_up))
    /\ BasisSector.num_dn_states sector
       = Z.of_nat (binom (Z.to_nat N) (Z.to_nat n_dn))
    /\ BasisSector.size sector
       = Z.of_nat (binom (Z.to_nat N) (Z.to_nat n_up))
         * Z.of_nat (binom (Z.to_nat N) (Z.to_nat n_dn))
    /\ 0 < BasisSector.size sector.
Proof.
  apply initialized_inv in Hinit. destruct Hinit as [HN ->].
  exists (sector_of N n_up n_dn).
  split; [apply get_sector_basis_of; lia|].
  split; [reflexivity|].
  split; [intros s Hs; now apply bucket_In in Hs|].
  split; [intros s Hs; now apply bucket_In in Hs|].
  assert (Hlen : forall k, 0 <= k <= N ->
            Z.of_nat (List.length (bucket N k))
            = Z.of_nat (binom (Z.to_nat N) (Z.to_nat k))).
  { intros k Hk. rewrite <- (Z2Nat.id N) at 1 by lia. rewrite bucket_length.
    destruct (Z.ltb_spec k 0); [lia | reflexivity]. }
  assert (Hpos : forall k, 0 <= k <= N -> 0 < Z.of_nat (List.length (bucket N k))).
  { intros k Hk.
    assert (Hin : In (2 ^ k - 1) (bucket N k)).
    { apply bucket_In.
      assert (0 < 2 ^ k) by (apply Z.pow_pos_nonneg; lia).
      assert (2 ^ k <= 2 ^ N) by (apply Z.pow_le_mono_r; lia).
      split; [lia|]. rewrite <- (Z2Nat.id k) at 1 by lia.
      rewrite n_ones. lia. }
    destruct (bucket N k); [contradiction | simpl; lia]. }
  unfold BasisSector.num_up_states, BasisSector.num_dn_states, BasisSector.size.
  cbn [sector_of BasisSector.up_states BasisSector.dn_states].
  rewrite <- !Hlen by lia.
  repeat split; try reflexivity. 
  pose proof (Hpos n_up Hup). pose proof (Hpos n_dn Hdn). nia.
Qed.

Lemma get_sector_size_witness :
  initialized (basis_of 2) 2 /\ 0 <= 1 <= 2
  /\ exists sector,
       FockBasis.get_sector (basis_of 2) (Some 1) (Some 1) None = Ok sector
       /\ BasisSector.size sector = 4.
Proof.
  assert (H1 : 0 <= 1 <= 2) by lia.
  split; [exact initialized_two|]. split; [exact H1|].
  destruct (@get_sector_size (basis_of 2) 2 1 1 initialized_two H1 H1)
    as (sec & Hget & _ & _ & _ & _ & _ & Hsize & _).
  exists sec. split; [exact Hget | exact Hsize].
Defined.

Lemma sumZ_app (l1 l2 : list Z) : sumZ (l1 ++ l2) = sumZ l1 + sumZ l2.
Proof.
  induction l1 as [|a l1 IH]; simpl; [reflexivity|]. rewrite IH. lia.
Qed.

Lemma sumZ_map_add {A : Type} (f g : A -> Z) (l : list A) :
  sumZ (map (fun a => f a + g a) l) = sumZ (map f l) + sumZ (map g l).
Proof.
  induction l as [|a l IH]; simpl; [reflexivity|]. rewrite IH. lia.
Qed.

Lemma sumZ_map_scale {A : Type} (c : Z) (g : A -> Z) (l : list A) :
  sumZ (map (fun a => c * g a) l) = c * sumZ (map g l).
Proof.
  induction l as [|a l IH]; simpl; [lia|]. rewrite IH. lia.
Qed.

Lemma sumZ_product {A B : Type} (f : A -> Z) (g : B -> Z)
      (xs : list A) (ys : list B) :
  sumZ (map (fun p => f (fst p) * g (snd p)) (product xs ys))
  = sumZ (map f xs) * sumZ (map g ys).
Proof.
  unfold product. induction xs as [|x xs IH]; [reflexivity|].
  cbn [flat_map map sumZ fold_right]. rewrite map_app, sumZ_app, IH.
  rewrite map_map. cbn [fst snd]. rewrite sumZ_map_scale.
  unfold sumZ. lia.
Qed.

Lemma sumZ_indicator (a : Z) (ks : list Z) :
  NoDup ks ->
  sumZ (map (fun k => if a =? k then 1 else 0) ks) = if existsb (Z.eqb a) ks then 1 else 0.
Proof.
  induction 1 as [|k ks Hnotin Hnd IH]; [reflexivity|].
  cbn [map sumZ fold_right existsb]. fold (sumZ (map (fun k => if a =? k then 1 else 0) ks)).
  rewrite IH. destruct (Z.eqb_spec a k) as [->|Hne]; cbn [orb]; [|lia].
  replace (existsb (Z.eqb k) ks) with false; [lia|].
  symmetry. apply not_true_is_false. now rewrite existsb_eqb_In.
Qed.

(** Counting a list bucket by bucket over a duplicate-free list of keys
    that covers every key of the list counts each element once. *)
Lemma sumZ_filter_lengths (key : Z -> Z) (ks l : list Z) :
  NoDup ks ->
  (forall s, In s l -> In (key s) ks) ->
  sumZ (map (fun k => Z.of_nat (List.length (filter (fun s => key s =? k) l))) ks)
  = Z.of_nat (List.length l).
Proof.
  intros Hnd. induction l as [|x l IH]; intros Hcover.
  - cbn [filter List.length]. clear Hnd Hcover.
    induction ks as [|k ks IHk]; [reflexivity|]. exact IHk.
  - rewrite (map_ext _ (fun k => (if key x =? k then 1 else 0)
                        + Z.of_nat (List.length (filter (fun s => key s =? k) l)))).
    2:{ intros k. cbn [filter]. destruct (key x =? k); cbn [List.length]; lia. }
    rewrite sumZ_map_add, IH by (intros s Hs; apply Hcover; now right).
    rewrite sumZ_indicator by assumption.
    replace (existsb (Z.eqb (key x)) ks) with true
      by (symmetry; apply existsb_eqb_In, Hcover; now left).
    cbn [List.length]. lia.
Qed.

Lemma bucket_lengths_sum (N : Z) :
  0 <= N ->
  sumZ (map (fun k => Z.of_nat (List.length (bucket N k))) (range (N + 1))) = 2 ^ N.
Proof.
  intros HN. unfold bucket.
  rewrite (sumZ_filter_lengths SpinState.n).
  - apply range_length. apply Z.pow_nonneg. lia.
  - apply sorted_NoDup, range_sorted.
  - intros s Hs. apply range_In.
    assert (Hex : exists s', In s' (range (2 ^ N)) /\ SpinState.n s' = SpinState.n s)
      by eauto.
    apply filling_occurs in Hex; lia.
Qed.

(** The sectors yielded by [iter_sectors] tile the full two-species space:
    their sizes add up to [FockBasis.size], which is [(2^N)^2]. *)
Theorem sector_sizes_sum (b : FockBasis.t) (N : Z) (Hinit : initialized b N) :
  exists sectors,
    FockBasis.iter_sectors b = Ok sectors
    /\ sumZ (map BasisSector.size sectors) = FockBasis.size b
    /\ FockBasis.size b = 2 ^ N * 2 ^ N.
Proof.
  apply initialized_inv in Hinit. destruct Hinit as [HN ->].
  assert (H0 : 0 <= N) by lia.
  eexists. split; [now apply iter_sectors_basis_of|].
  assert (Hsize : FockBasis.size (basis_of N) = 2 ^ N * 2 ^ N).
  { unfold FockBasis.size, basis_of. cbn [FockBasis._size].
    rewrite range_length by (apply Z.pow_nonneg; lia). reflexivity. }
  split; [|exact Hsize]. rewrite Hsize.
  unfold product_with. rewrite map_map.
  rewrite (map_ext _ (fun p => Z.of_nat (List.length (bucket N (fst p)))
                               * Z.of_nat (List.length (bucket N (snd p)))))
    by reflexivity.
  rewrite (sumZ_product (fun k => Z.of_nat (List.length (bucket N k)))
                        (fun k => Z.of_nat (List.length (bucket N k)))).
  now rewrite bucket_lengths_sum.
Qed.

Lemma sector_sizes_sum_witness :
  initialized (basis_of 2) 2
  /\ exists sectors,
       FockBasis.iter_sectors (basis_of 2) = Ok sectors
       /\ sumZ (map BasisSector.size sectors) = 16.
Proof.
  split; [exact initialized_two|].
  destruct (sector_sizes_sum initialized_two) as (secs & Hrun & Hsum & _).
  exists secs. split; [exact Hrun | exact Hsum].
Defined.

(** [FockBasis.states] of an initialised basis yields [size = (2^N)^2]
    composite states, the one at position [i * 2^N + j] being
    [State(i, j)]: every pair of single-species states occurs once. *)
Theorem FockBasis_states_spec (b : FockBasis.t) (N : Z) (Hinit : initialized b N) :
  Z.of_nat (List.length (FockBasis.states b)) = FockBasis.size b
  /\ FockBasis.size b = 2 ^ N * 2 ^ N
  /\ (forall i j,
         0 <= i < 2 ^ N -> 0 <= j < 2 ^ N ->
         nth_error (FockBasis.states b) (Z.to_nat (i * 2 ^ N + j))
         = Some (State.mk i j))
  /\ NoDup (FockBasis.states b).
Proof.
  apply initialized_inv in Hinit. destruct Hinit as [HN ->].
  assert (Hp : 0 < 2 ^ N) by (apply Z.pow_pos_nonneg; lia).
  assert (Hlen : List.length (range (2 ^ N)) = Z.to_nat (2 ^ N)).
  { pose proof (@range_length (2 ^ N)). lia. }
  assert (Hstates : FockBasis.states (basis_of N)
                    = product_with State.mk (range (2 ^ N)) (range (2 ^ N)))
    by reflexivity.
  assert (Hsize : FockBasis.size (basis_of N) = 2 ^ N * 2 ^ N).
  { unfold FockBasis.size, basis_of. cbn [FockBasis._size].
    rewrite range_length by lia. reflexivity. }
  assert (Hnth : forall i j,
             0 <= i < 2 ^ N -> 0 <= j < 2 ^ N ->
             nth_error (FockBasis.states (basis_of N)) (Z.to_nat (i * 2 ^ N + j))
             = Some (State.mk i j)).
  { intros i j Hi Hj. rewrite Hstates.
    replace (Z.to_nat (i * 2 ^ N + j))
      with (Z.to_nat i * List.length (range (2 ^ N)) + Z.to_nat j)%nat
      by (rewrite Hlen; nia).
    apply product_with_nth; rewrite range_nth by lia; f_equal; lia. }
  assert (Hlength : Z.of_nat (List.length (FockBasis.states (basis_of N)))
                    = 2 ^ N * 2 ^ N).
  { rewrite Hstates, product_with_length, Hlen. lia. }
  split; [now rewrite Hsize|]. split; [exact Hsize|]. split; [exact Hnth|].
  apply NoDup_nth_error. intros m k Hm Heq.
  assert (Hk : (k < List.length (FockBasis.states (basis_of N)))%nat).
  { apply nth_error_Some. rewrite <- Heq. now apply nth_error_Some. }
  assert (Hdec : forall q : nat,
             (q < List.length (FockBasis.states (basis_of N)))%nat ->
             nth_error (FockBasis.states (basis_of N)) q
             = Some (State.mk (Z.of_nat q / 2 ^ N) (Z.of_nat q mod 2 ^ N))).
  { intros q Hq.
    pose proof (Z.div_mod (Z.of_nat q) (2 ^ N)) as Hdm.
    pose proof (Z.mod_pos_bound (Z.of_nat q) (2 ^ N) Hp) as Hmod.
    assert (Hdiv : 0 <= Z.of_nat q / 2 ^ N < 2 ^ N).
    { split; [apply Z.div_pos; lia|]. apply Z.div_lt_upper_bound; lia. }
    rewrite <- (Hnth _ _ Hdiv Hmod). f_equal. lia. }
  rewrite (Hdec m Hm), (Hdec k Hk) in Heq. injection Heq as Hq Hr.
  pose proof (Z.div_mod (Z.of_nat m) (2 ^ N)).
  pose proof (Z.div_mod (Z.of_nat k) (2 ^ N)).
  assert (Z.of_nat m = Z.of_nat k) by (rewrite H, H0, Hq, Hr by lia; reflexivity).
  lia.
Qed.

Lemma FockBasis_states_spec_witness :
  initialized (basis_of 2) 2
  /\ Z.of_nat (List.length (FockBasis.states (basis_of 2))) = 16
  /\ nth_error (FockBasis.states (basis_of 2)) 9 = Some (State.mk 2 1).
Proof.
  split; [exact initialized_two|].
  destruct (FockBasis_states_spec initialized_two) as (Hlen & Hsize & Hnth & _).
  split.
  - rewrite Hlen. exact Hsize.
  - assert (H2 : 0 <= 2 < 2 ^ 2) by (simpl; lia).
    assert (H1 : 0 <= 1 < 2 ^ 2) by (simpl; lia).
    exact (Hnth 2 1 H2 H1).
Defined.

(** ** Moving between sectors *)

Lemma get_next_sector_basis_of (N n_up n_dn sigma delta : Z)
      (arg_up arg_dn : option Z) (sector : option BasisSector.t) :
  0 <= N ->
  match sector with
  | Some s => BasisSector.filling s
  | None => (arg_up, arg_dn)
  end = (Some n_up, Some n_dn) ->
  FockBasis.get_next_sector (basis_of N) arg_up arg_dn sector sigma delta
  = let n_up' := if sigma =? UP then n_up + delta else n_up in
    let n_dn' := if sigma =? UP then n_dn else n_dn + delta in
    if (0 <=? n_up') && (n_up' <=? N) && ((0 <=? n_dn') && (n_dn' <=? N))
    then Ok (Some (sector_of N n_up' n_dn'))
    else Ok None.
Proof.
  intros HN Hfill. unfold FockBasis.get_next_sector. rewrite Hfill.
  cbn [iadd bind].
  destruct (sigma =? UP); cbn [bind]; rewrite !contains_basis_of by assumption;
    cbv zeta;
    match goal with
    | |- context [negb ?a || negb ?b] =>
        destruct a eqn:Ea; destruct b eqn:Eb; cbn [negb orb andb];
        try reflexivity
    end;
    apply andb_true_iff in Ea, Eb; rewrite !Z.leb_le in Ea, Eb;
    now rewrite get_sector_basis_of by lia.
Qed.

(** Shifting a filling by [delta] and then, from the sector reached, by
    [-delta] leads back to the sector of the original fillings; the
    fillings passed next to a [sector] argument are ignored. *)
Theorem get_next_sector_roundtrip
        (b : FockBasis.t) (N n_up n_dn sigma delta : Z) (s : BasisSector.t)
        (Hinit : initialized b N)
        (Hup : 0 <= n_up <= N) (Hdn : 0 <= n_dn <= N)
        (Hnext : FockBasis.get_next_sector b (Some n_up) (Some n_dn) None
                                           sigma delta = Ok (Some s)) :
  forall arg_up arg_dn,
    exists origin,
      FockBasis.get_next_sector b arg_up arg_dn (Some s) sigma (- delta)
      = Ok (Some origin)
      /\ FockBasis.get_sector b (Some n_up) (Some n_dn) None = Ok origin.
Proof.
  intros arg_up arg_dn.
  apply initialized_inv in Hinit. destruct Hinit as [HN ->].
  exists (sector_of N n_up n_dn).
  split; [|apply get_sector_basis_of; lia].
  rewrite (@get_next_sector_basis_of N n_up n_dn sigma delta (Some n_up)
             (Some n_dn) None) in Hnext by (lia || reflexivity).
  cbv zeta in Hnext.
  destruct ((0 <=? (if sigma =? UP then n_up + delta else n_up))
            && ((if sigma =? UP then n_up + delta else n_up) <=? N)
            && ((0 <=? (if sigma =? UP then n_dn else n_dn + delta))
                && ((if sigma =? UP then n_dn else n_dn + delta) <=? N)))
    eqn:Hrange; [|discriminate].
  injection Hnext as <-.
  rewrite (@get_next_sector_basis_of N
             (if sigma =? UP then n_up + delta else n_up)
             (if sigma =? UP then n_dn else n_dn + delta)
             sigma (- delta) arg_up arg_dn) by (lia || reflexivity).
  cbv zeta.
  destruct (sigma =? UP).
  - replace (n_up + delta + - delta) with n_up by lia.
    replace ((0 <=? n_up) && (n_up <=? N) && ((0 <=? n_dn) && (n_dn <=? N)))
      with true by (symmetry; lia).
    reflexivity.
  - replace (n_dn + delta + - delta) with n_dn by lia.
    replace ((0 <=? n_up) && (n_up <=? N) && ((0 <=? n_dn) && (n_dn <=? N)))
      with true by (symmetry; lia).
    reflexivity.
Qed.

Lemma get_next_sector_roundtrip_witness :
  initialized (basis_of 2) 2 /\ 0 <= 1 <= 2
  /\ FockBasis.get_next_sector (basis_of 2) (Some 1) (Some 1) None UP 1
     = Ok (Some (sector_of 2 2 1))
  /\ exists origin,
       FockBasis.get_next_sector (basis_of 2) None None
                                 (Some (sector_of 2 2 1)) UP (- (1))
       = Ok (Some origin)
       /\ FockBasis.get_sector (basis_of 2) (Some 1) (Some 1) None = Ok origin.
Proof.
  assert (H1 : 0 <= 1 <= 2) by lia.
  assert (Hnext : FockBasis.get_next_sector (basis_of 2) (Some 1) (Some 1) None UP 1
                  = Ok (Some (sector_of 2 2 1))) by reflexivity.
  split; [exact initialized_two|]. split; [exact H1|]. split; [exact Hnext|].
  exact (@get_next_sector_roundtrip (basis_of 2) 2 1 1 UP 1 (sector_of 2 2 1)
           initialized_two H1 H1 Hnext None None).
Defined.

(** Without a [sector], the filling that [sigma] selects must be an int:
    [None += delta] raises [TypeError].  A [None] left in the other filling
    is not an error: it is in no catalogue, so the result is [None]. *)
Theorem get_next_sector_missing_filling
        (b : FockBasis.t) (k sigma delta : Z) (other : option Z) :
  FockBasis.get_next_sector b None other None UP delta = Raise TypeError
  /\ FockBasis.get_next_sector b (Some k) None None UP delta = Ok None
  /\ (sigma <> UP ->
      FockBasis.get_next_sector b other None None sigma delta = Raise TypeError
      /\ FockBasis.get_next_sector b None (Some k) None sigma delta = Ok None).
Proof.
  unfold FockBasis.get_next_sector.
  split; [reflexivity|]. split.
  - change (UP =? UP) with true. cbn [iadd bind contains].
    now rewrite orb_true_r.
  - intros Hsig. apply Z.eqb_neq in Hsig. rewrite Hsig. split; reflexivity.
Qed.

Lemma get_next_sector_missing_filling_witness :
  DN <> UP
  /\ FockBasis.get_next_sector (basis_of 2) (Some 1) None None DN 1
     = Raise TypeError
  /\ FockBasis.get_next_sector (basis_of 2) None (Some 1) None DN 1 = Ok None.
Proof.
  assert (H : DN <> UP) by discriminate.
  split; [exact H|].
  exact (proj2 (proj2 (get_next_sector_missing_filling
                         (basis_of 2) 1 DN 1 (Some 1))) H).
Defined.

(** ** Construction and re-initialisation *)

(** [FockBasis(N)]: a positive [N] builds the basis and rebinds [BITS], [0]
    leaves an uninitialised object and the globals alone, a negative [N]
    raises [ValueError] after [BITS] has been rebound. *)
Theorem FockBasis_init_cases (N : Z) (g : globals) :
  FockBasis.init N g
  = if 1 <=? N then ({| BITS := N |}, Ok (basis_of N))
    else if N =? 0 then (g, Ok fresh_basis)
         else ({| BITS := N |}, Raise ValueError).
Proof.
  unfold FockBasis.init, truthy.
  destruct (Z.leb_spec 1 N) as [Hpos|Hle].
  - destruct (Z.eqb_spec N 0); [lia|]. cbn [negb].
    now rewrite init_basis_pos.
  - destruct (Z.eqb_spec N 0) as [->|Hne]; [reflexivity|]. cbn [negb].
    now rewrite init_basis_nonpos by lia.
Qed.

(** Re-initialising: the outcome of [init_basis] does not depend on what
    the object held before, so repeating a call changes nothing; a call
    with a non-positive count raises, keeps the basis, and still rebinds
    [BITS]. *)
Theorem init_basis_reinit
        (self b1 : FockBasis.t) (N M : Z) (g g1 : globals)
        (Hfirst : FockBasis.init_basis self N g = (g1, b1, Ok tt)) :
  FockBasis.init_basis b1 N g1 = (g1, b1, Ok tt)
  /\ FockBasis.num_sites b1 = N
  /\ BITS g1 = N
  /\ (1 <= M ->
      FockBasis.init_basis b1 M g1 = FockBasis.init_basis fresh_basis M g)
  /\ (M <= 0 ->
      FockBasis.init_basis b1 M g1 = ({| BITS := M |}, b1, Raise ValueError)).
Proof.
  pose proof (init_basis_ok_inv _ _ _ Hfirst) as [HN ->].
  rewrite init_basis_pos in Hfirst by assumption.
  injection Hfirst as <-.
  split; [now apply init_basis_pos|]. split; [reflexivity|].
  split; [reflexivity|]. split.
  - intros HM. now rewrite !init_basis_pos.
  - intros HM. now apply init_basis_nonpos.
Qed.

Lemma init_basis_reinit_witness :
  FockBasis.init_basis fresh_basis 2 initial_globals
  = ({| BITS := 2 |}, basis_of 2, Ok tt)
  /\ FockBasis.init_basis (basis_of 2) 2 {| BITS := 2 |}
     = ({| BITS := 2 |}, basis_of 2, Ok tt).
Proof.
  assert (H : FockBasis.init_basis fresh_basis 2 initial_globals
              = ({| BITS := 2 |}, basis_of 2, Ok tt)) by reflexivity.
  split; [exact H|].
  exact (proj1 (@init_basis_reinit fresh_basis (basis_of 2) 2 0
                  initial_globals {| BITS := 2 |} H)).
Defined.

(** On a basis that was never initialised the catalogue of fillings is
    empty: [get_next_sector] with int fillings returns [None] and
    [iter_sectors] yields nothing, neither raises, and [states] is empty. *)
Theorem fresh_basis_navigation (n_up n_dn sigma delta : Z) :
  FockBasis.get_next_sector fresh_basis (Some n_up) (Some n_dn) None sigma delta
  = Ok None
  /\ FockBasis.iter_sectors fresh_basis = Ok []
  /\ FockBasis.states fresh_basis = []
  /\ FockBasis.size fresh_basis = 0.
Proof.
  split; [|repeat split].
  unfold FockBasis.get_next_sector. cbn [iadd].
  destruct (sigma =? UP); reflexivity.
Qed.

(** ** Flat indices of a sector *)

Lemma getitem_nonneg {A : Type} (l : list A) (i : Z) (d : A) :
  0 <= i ->
  getitem l i
  = if Z.of_nat (List.length l) <=? i then Raise IndexError
    else Ok (nth (Z.to_nat i) l d).
Proof.
  intros Hi. unfold getitem.
  destruct (Z.ltb_spec i 0) as [Hlt|_]; [lia|].
  destruct (Z.ltb_spec i 0) as [Hlt|_]; [lia|]. cbn [orb].
  destruct (Z.leb_spec (Z.of_nat (List.length l)) i) as [Hle|Hlt];
    [reflexivity|].
  now rewrite nth_error_nth' with (d := d) by lia.
Qed.

(** Distinct index pairs get distinct flat indices, but the flat index
    stays below [size] only in the first row: with [idx_up >= 1] it is at
    least [size]. *)
Theorem get_state_index_spread
        (self : BasisSector.t) (idx_up idx_dn idx_up' idx_dn' : Z)
        (Hup : 0 <= idx_up < BasisSector.num_up_states self)
        (Hdn : 0 <= idx_dn < BasisSector.num_dn_states self)
        (Hup' : 0 <= idx_up' < BasisSector.num_up_states self)
        (Hdn' : 0 <= idx_dn' < BasisSector.num_dn_states self) :
  (BasisSector.get_state_index self idx_up idx_dn
   = BasisSector.get_state_index self idx_up' idx_dn'
   -> idx_up = idx_up' /\ idx_dn = idx_dn')
  /\ (BasisSector.get_state_index self idx_up idx_dn < BasisSector.size self
      <-> idx_up = 0)
  /\ 0 <= BasisSector.get_state_index self idx_up idx_dn
     < BasisSector.num_up_states self * BasisSector.size self.
Proof.
  unfold BasisSector.get_state_index, BasisSector.size,
    BasisSector.num_up_states, BasisSector.num_dn_states in *.
  set (U := Z.of_nat (List.length (BasisSector.up_states self))) in *.
  set (D := Z.of_nat (List.length (BasisSector.dn_states self))) in *.
  assert (HD : D <= U * D) by nia.
  split; [|split].
  - intros Heq.
    assert (Hq : idx_up = idx_up').
    { assert (H1 : (idx_up * (U * D) + idx_dn) / (U * D) = idx_up)
        by (rewrite Z.div_add_l, Z.div_small; lia).
      assert (H2 : (idx_up' * (U * D) + idx_dn') / (U * D) = idx_up')
        by (rewrite Z.div_add_l, Z.div_small; lia).
      rewrite Heq in H1. lia. }
    subst idx_up'. split; [reflexivity | lia].
  - split; [intros Hlt; nia | intros ->; lia].
  - nia.
Qed.

Lemma get_state_index_spread_witness :
  BasisSector.get_state_index (sector_of 2 1 1) 1 0 = 4
  /\ (BasisSector.get_state_index (sector_of 2 1 1) 1 0
      < BasisSector.size (sector_of 2 1 1) <-> 1 = 0).
Proof.
  assert (H0 : 0 <= 0 < BasisSector.num_dn_states (sector_of 2 1 1))
    by (vm_compute; split; [discriminate | reflexivity]).
  assert (H1 : 0 <= 1 < BasisSector.num_up_states (sector_of 2 1 1))
    by (vm_compute; split; [discriminate | reflexivity]).
  split; [reflexivity|].
  exact (proj1 (proj2 (@get_state_index_spread (sector_of 2 1 1) 1 0 1 0
                         H1 H0 H1 H0))).
Defined.

(** [get_spin_states] on a non-negative flat index: an empty sector raises
    [ZeroDivisionError]; otherwise the index is split by [size], and a
    quotient beyond [up_states] or a remainder beyond [dn_states] raises
    [IndexError].  Whenever it answers, the flat index is the
    [get_state_index] of the positions answered for. *)
Theorem get_spin_states_cases (self : BasisSector.t) (state_idx : Z)
        (Hidx : 0 <= state_idx) :
  BasisSector.get_spin_states self state_idx
  = (if BasisSector.size self =? 0 then Raise ZeroDivisionError
     else if BasisSector.num_up_states self <=? state_idx / BasisSector.size self
          then Raise IndexError
          else if BasisSector.num_dn_states self
                  <=? state_idx mod BasisSector.size self
               then Raise IndexError
               else Ok (nth (Z.to_nat (state_idx / BasisSector.size self))
                            (BasisSector.up_states self) 0,
                        nth (Z.to_nat (state_idx mod BasisSector.size self))
                            (BasisSector.dn_states self) 0))
  /\ (forall u d,
         BasisSector.get_spin_states self state_idx = Ok (u, d) ->
         BasisSector.get_state_index self
           (state_idx / BasisSector.size self)
           (state_idx mod BasisSector.size self) = state_idx
         /\ state_idx mod BasisSector.size self < BasisSector.num_dn_states self).
Proof.
  assert (Hcases :
    BasisSector.get_spin_states self state_idx
    = (if BasisSector.size self =? 0 then Raise ZeroDivisionError
       else if BasisSector.num_up_states self <=? state_idx / BasisSector.size self
            then Raise IndexError
            else if BasisSector.num_dn_states self
                    <=? state_idx mod BasisSector.size self
                 then Raise IndexError
                 else Ok (nth (Z.to_nat (state_idx / BasisSector.size self))
                              (BasisSector.up_states self) 0,
                          nth (Z.to_nat (state_idx mod BasisSector.size self))
                              (BasisSector.dn_states self) 0))).
  { unfold BasisSector.get_spin_states, floordiv, pymod.
    destruct (Z.eqb_spec (BasisSector.size self) 0) as [Hz|Hnz]; [reflexivity|].
    cbn [bind].
    assert (Hsize : 0 < BasisSector.size self)
      by (unfold BasisSector.size in *; nia).
    rewrite (getitem_nonneg _ 0) by (apply Z.div_pos; lia).
    fold (BasisSector.num_up_states self).
    destruct (BasisSector.num_up_states self <=? state_idx / BasisSector.size self);
      [reflexivity|]. cbn [bind].
    rewrite (getitem_nonneg _ 0) by (apply Z.mod_pos_bound; lia).
    fold (BasisSector.num_dn_states self).
    now destruct (BasisSector.num_dn_states self
                  <=? state_idx mod BasisSector.size self). }
  split; [exact Hcases|].
  intros u d Hok. rewrite Hcases in Hok.
  destruct (Z.eqb_spec (BasisSector.size self) 0) as [Hz|Hnz]; [discriminate|].
  destruct (Z.leb_spec (BasisSector.num_up_states self)
                       (state_idx / BasisSector.size self)); [discriminate|].
  destruct (Z.leb_spec (BasisSector.num_dn_states self)
                       (state_idx mod BasisSector.size self)); [discriminate|].
  split; [|assumption].
  unfold BasisSector.get_state_index.
  pose proof (Z.div_mod state_idx (BasisSector.size self) Hnz). lia.
Qed.

Lemma get_spin_states_cases_witness :
  0 <= 2
  /\ BasisSector.get_spin_states (sector_of 2 1 1) 2 = Raise IndexError
  /\ BasisSector.get_spin_states (BasisSector.mk 2 (Some 3) (Some 1) [] [1; 2]) 2
     = Raise ZeroDivisionError.
Proof.
  assert (H : 0 <= 2) by lia.
  split; [exact H|]. split.
  - exact (proj1 (@get_spin_states_cases (sector_of 2 1 1) 2 H)).
  - exact (proj1 (@get_spin_states_cases
                    (BasisSector.mk 2 (Some 3) (Some 1) [] [1; 2]) 2 H)).
Defined.

(** ** Binary strings and labels *)

Lemma list_ascii_app (a b : string) :
  list_ascii_of_string (a ++ b)
  = list_ascii_of_string a ++ list_ascii_of_string b.
Proof.
  induction a as [|c a IH]; simpl; [reflexivity|]. now rewrite IH.
Qed.

Lemma string_of_list_app (l m : list ascii) :
  string_of_list_ascii (l ++ m)
  = (string_of_list_ascii l ++ string_of_list_ascii m)%string.
Proof.
  induction l as [|c l IH]; simpl; [reflexivity|]. now rewrite IH.
Qed.

Lemma get_string_of_list (l : list ascii) (i : nat) :
  String.get i (string_of_list_ascii l) = nth_error l i.
Proof.
  revert i. induction l as [|c l IH]; intros [|i]; simpl; auto.
Qed.

Lemma string_length_list (s : string) :
  String.length s = List.length (list_ascii_of_string s).
Proof.
  induction s as [|c s IH]; simpl; [reflexivity|]. now rewrite IH.
Qed.

Lemma range_succ_Z (n : Z) :
  0 <= n -> range (n + 1) = 0 :: map Z.succ (range n).
Proof.
  intros Hn. rewrite <- (Z2Nat.id n Hn) at 1.
  replace (Z.of_nat (Z.to_nat n) + 1) with (Z.of_nat (S (Z.to_nat n))) by lia.
  now rewrite range_succ, Z2Nat.id.
Qed.

Lemma bin_digits_rev (p : positive) :
  rev (list_ascii_of_string (bin_digits p))
  = map (bit_char (Z.pos p)) (range (Z.log2 (Z.pos p) + 1)).
Proof.
  induction p as [q IH|q IH|].
  - cbn [bin_digits]. rewrite list_ascii_app, rev_app_distr. cbn [rev app
      list_ascii_of_string].
    change (Z.pos q~1) with (2 * Z.pos q + 1).
    rewrite Z.log2_succ_double by lia.
    pose proof (Z.log2_nonneg (Z.pos q)).
    unfold Z.succ. rewrite range_succ_Z by lia. cbn [map]. f_equal.
    rewrite IH, map_map. apply map_ext_in. intros i Hi.
    apply range_In in Hi. unfold bit_char.
    now rewrite Z.testbit_odd_succ by lia.
  - cbn [bin_digits]. rewrite list_ascii_app, rev_app_distr. cbn [rev app
      list_ascii_of_string].
    change (Z.pos q~0) with (2 * Z.pos q).
    rewrite Z.log2_double by lia.
    pose proof (Z.log2_nonneg (Z.pos q)).
    unfold Z.succ. rewrite range_succ_Z by lia. cbn [map]. f_equal.
    rewrite IH, map_map. apply map_ext_in. intros i Hi.
    apply range_In in Hi. unfold bit_char.
    now rewrite Z.testbit_even_succ by lia.
  - reflexivity.
Qed.

Lemma bin_abs_rev (z : Z) :
  0 <= z ->
  rev (list_ascii_of_string (bin_abs z))
  = map (bit_char z) (range (Z.log2 z + 1)).
Proof.
  intros Hz. destruct z as [|p|p]; [reflexivity | apply bin_digits_rev | lia].
Qed.

Lemma bin_abs_length (z : Z) :
  0 <= z -> Z.of_nat (String.length (bin_abs z)) = Z.log2 z + 1.
Proof.
  intros Hz. rewrite string_length_list, <- length_rev, bin_abs_rev by assumption.
  rewrite length_map. apply range_length.
  pose proof (Z.log2_nonneg z). lia.
Qed.

Lemma bin_body_length (z : Z) :
  0 <= z ->
  Z.of_nat (String.length (str_drop 2 (bin z))) = Z.log2 z + 1.
Proof.
  intros Hz. rewrite <- bin_abs_length by assumption.
  destruct z as [|p|p]; [reflexivity | reflexivity | lia].
Qed.

Lemma str_repeat_list (c : ascii) (n : Z) :
  list_ascii_of_string (str_repeat c n) = repeat c (Z.to_nat n).
Proof.
  unfold str_repeat. apply list_ascii_of_string_of_list_ascii.
Qed.

Lemma rev_repeat {A : Type} (a : A) (n : nat) : rev (repeat a n) = repeat a n.
Proof.
  induction n as [|n IH]; [reflexivity|].
  cbn [repeat rev]. rewrite IH. clear IH.
  induction n as [|n IH]; [reflexivity|]. cbn [repeat app]. now rewrite IH.
Qed.

Lemma high_bits_zero (z a b : Z) :
  0 <= z -> Z.log2 z < a -> 0 <= b ->
  map (bit_char z) (map (Z.add a) (range b)) = repeat "0"%char (Z.to_nat b).
Proof.
  intros Hz Ha Hb. rewrite map_map.
  rewrite (map_ext_in _ (fun _ => "0"%char)).
  - rewrite map_const. f_equal. pose proof (range_length Hb). lia.
  - intros i Hi. apply range_In in Hi. unfold bit_char.
    now rewrite Z.bits_above_log2 by lia.
Qed.

Lemma binstr_unfold (num fill : Z) (g : globals) :
  0 <= num -> 0 <= fill ->
  binstr num (Some fill) g
  = Ok (string_of_list_ascii
          (map (bit_char num) (range (Z.max fill (Z.log2 num + 1))))).
Proof.
  intros Hnum Hfill. unfold binstr, format_0b.
  destruct (Z.ltb_spec fill 0) as [?|_]; [lia|].
  destruct (Z.ltb_spec num 0) as [?|_]; [lia|]. cbn [bind]. f_equal.
  unfold str_rev. f_equal.
  rewrite list_ascii_app, rev_app_distr, str_repeat_list, rev_repeat.
  rewrite bin_abs_rev, bin_abs_length by assumption.
  pose proof (Z.log2_nonneg num) as Hlog.
  set (L := Z.log2 num + 1) in *.
  destruct (Z.le_gt_cases fill L) as [Hle|Hgt].
  - replace (Z.to_nat (fill - L)) with 0%nat by lia.
    rewrite Z.max_r by assumption. cbn [repeat]. now rewrite app_nil_r.
  - rewrite Z.max_l by lia.
    replace fill with (L + (fill - L)) at 2 by lia.
    rewrite range_app, map_app by lia. f_equal.
    symmetry. apply high_bits_zero; lia.
Qed.

Lemma log2_succ_le_width (N s : Z) :
  1 <= N -> 0 <= s < 2 ^ N -> Z.log2 s + 1 <= N.
Proof.
  intros HN Hs. destruct (Z.eq_dec s 0) as [->|Hne]; [simpl; lia|].
  assert (Z.log2 s < N) by (apply Z.log2_lt_pow2; lia). lia.
Qed.

(** [binstr] of a non-negative number with a non-negative width lists the
    bits of the number from site 0 upwards, one character per bit, over
    [max(width, bit length)] positions: a width that is too small is
    widened, never truncated. *)
Theorem binstr_bits (num fill : Z) (g : globals)
        (Hnum : 0 <= num) (Hfill : 0 <= fill) :
  exists str,
    binstr num (Some fill) g = Ok str
    /\ str = string_of_list_ascii
              (map (bit_char num) (range (Z.max fill (Z.log2 num + 1))))
    /\ Z.of_nat (String.length str) = Z.max fill (Z.log2 num + 1)
    /\ (forall i : nat,
           Z.of_nat i < Z.max fill (Z.log2 num + 1) ->
           String.get i str
           = Some (if Z.testbit num (Z.of_nat i) then "1" else "0")%char).
Proof.
  eexists. split; [now apply binstr_unfold|]. split; [reflexivity|].
  pose proof (Z.log2_nonneg num) as Hlog.
  set (W := Z.max fill (Z.log2 num + 1)).
  assert (HW : 0 <= W) by (subst W; lia).
  split.
  - rewrite string_length_list, list_ascii_of_string_of_list_ascii, length_map.
    now apply range_length.
  - intros i Hi. rewrite get_string_of_list.
    assert (Hnth : nth_error (range W) i = Some (Z.of_nat i))
      by (apply range_nth; lia).
    now rewrite (map_nth_error _ _ _ Hnth).
Qed.

Lemma binstr_bits_witness :
  0 <= 5 /\ 0 <= 6
  /\ binstr 5 (Some 6) initial_globals = Ok "101000"%string
  /\ binstr 5 (Some 2) initial_globals = Ok "101"%string.
Proof.
  assert (H5 : 0 <= 5) by lia. assert (H6 : 0 <= 6) by lia.
  assert (H2 : 0 <= 2) by lia.
  split; [exact H5|]. split; [exact H6|]. split.
  - destruct (@binstr_bits 5 6 initial_globals H5 H6) as (str & Hrun & -> & _).
    exact Hrun.
  - destruct (@binstr_bits 5 2 initial_globals H5 H2) as (str & Hrun & -> & _).
    exact Hrun.
Defined.

(** A negative width is rejected with [ValueError]; a negative number
    keeps its minus sign, which the reversal moves to the end. *)
Theorem binstr_edge_cases (num fill : Z) (g : globals) :
  (fill < 0 -> binstr num (Some fill) g = Raise ValueError)
  /\ (num < 0 -> 0 <= fill ->
      exists body, binstr num (Some fill) g = Ok (body ++ "-")%string).
Proof.
  unfold binstr, format_0b. split.
  - intros Hneg. destruct (Z.ltb_spec fill 0); [reflexivity | lia].
  - intros Hnum Hfill.
    destruct (Z.ltb_spec fill 0); [lia|].
    destruct (Z.ltb_spec num 0); [|lia]. cbn [bind].
    eexists. f_equal. unfold str_rev.
    cbn [append list_ascii_of_string rev].
    now rewrite string_of_list_app.
Qed.

Lemma binstr_edge_cases_witness :
  -1 < 0 /\ binstr 5 (Some (-1)) initial_globals = Raise ValueError.
Proof.
  assert (H : -1 < 0) by lia.
  split; [exact H|].
  exact (proj1 (binstr_edge_cases 5 (-1) initial_globals) H).
Defined.

Lemma shift_mask_bit (z i : Z) :
  0 <= i -> Z.land (Z.shiftr z i) 1 = Z.b2z (Z.testbit z i).
Proof.
  intros Hi. change 1 with (Z.ones 1) at 1.
  rewrite Z.land_ones by lia. change (2 ^ 1) with 2.
  rewrite <- Z.bit0_mod, Z.shiftr_spec by lia. reflexivity.
Qed.

Lemma truthy_shift_mask (z i : Z) :
  0 <= i -> truthy (Z.land (Z.shiftr z i) 1) = Z.testbit z i.
Proof.
  intros Hi. rewrite shift_mask_bit by assumption.
  now destruct (Z.testbit z i).
Qed.

Lemma spin_glyph_site (spinstate sigma i : Z) :
  0 <= i ->
  (if truthy (Z.land (Z.shiftr spinstate i) 1)
   then (if sigma =? UP then UP_CHAR else DN_CHAR)
   else EMPTY)
  = spin_glyph spinstate sigma i.
Proof.
  intros Hi. unfold spin_glyph. now rewrite truthy_shift_mask.
Qed.

(** [spinstate_label] of a non-negative state shows one glyph per site
    from site 0 upwards, the species glyph on occupied sites and the empty
    glyph elsewhere, over [max(bit length, digits)] sites; without
    [digits] the global [BITS] is the width. *)
Theorem spinstate_label_glyphs
        (spinstate sigma digits : Z) (bra ket : bool) (g : globals)
        (Hs : 0 <= spinstate) :
  spinstate_label spinstate sigma (Some digits) bra ket g
  = decorate
      (String.concat ""
         (map (spin_glyph spinstate sigma)
              (range (Z.max (Z.log2 spinstate + 1) digits))))
      bra ket
  /\ spinstate_label spinstate sigma None bra ket g
     = spinstate_label spinstate sigma (Some (BITS g)) bra ket g.
Proof.
  split; [|reflexivity].
  unfold spinstate_label. rewrite bin_body_length by assumption.
  do 2 f_equal. apply map_ext_in. intros i Hi. apply range_In in Hi.
  apply spin_glyph_site. lia.
Qed.

Lemma spinstate_label_glyphs_witness :
  0 <= 1
  /\ spinstate_label 1 UP (Some 2) false true initial_globals
     = ("|" ++ UP_CHAR ++ EMPTY ++ "⟩")%string.
Proof.
  assert (H : 0 <= 1) by lia.
  split; [exact H|].
  exact (proj1 (@spinstate_label_glyphs 1 UP 2 false true initial_globals H)).
Defined.

(** A sector labels each of its states with exactly [num_sites] glyphs. *)
Theorem SpinSector_get_label_width
        (self : SpinSector.t) (state : Z) (bra ket : bool) (g : globals)
        (HN : 1 <= SpinSector.num_sites self)
        (Hstate : 0 <= state < 2 ^ SpinSector.num_sites self) :
  SpinSector.get_label self state bra ket g
  = decorate
      (String.concat ""
         (map (spin_glyph state (SpinSector.sigma self))
              (range (SpinSector.num_sites self))))
      bra ket.
Proof.
  unfold SpinSector.get_label, spinstate_label.
  rewrite bin_body_length by lia.
  rewrite Z.max_r by now apply log2_succ_le_width.
  do 2 f_equal. apply map_ext_in. intros i Hi. apply range_In in Hi.
  apply spin_glyph_site. lia.
Qed.

Lemma SpinSector_get_label_width_witness :
  1 <= 3 /\ 0 <= 2 < 2 ^ 3
  /\ SpinSector.get_label (SpinSector.mk 3 (Some 1) DN [1; 2; 4]) 2 true false
                          initial_globals
     = ("⟨" ++ EMPTY ++ DN_CHAR ++ EMPTY ++ "|")%string.
Proof.
  assert (HN : 1 <= 3) by lia.
  assert (Hs : 0 <= 2 < 2 ^ 3) by (simpl; lia).
  split; [exact HN|]. split; [exact Hs|].
  exact (@SpinSector_get_label_width (SpinSector.mk 3 (Some 1) DN [1; 2; 4]) 2
           true false initial_globals HN Hs).
Defined.

Lemma traverse_opt_some {A B : Type} (f : A -> option B) (h : A -> B)
      (l : list A) :
  (forall a, In a l -> f a = Some (h a)) ->
  traverse_opt f l = Some (map h l).
Proof.
  induction l as [|a l IH]; intros Hf; [reflexivity|].
  cbn [traverse_opt map]. rewrite (Hf a) by now left.
  now rewrite IH by (intros x Hx; apply Hf; now right).
Qed.

Lemma state_glyph_site (up_num dn_num i : Z) :
  0 <= i ->
  (let u := Z.land (Z.shiftr up_num i) 1 in
   let d := Z.land (Z.shiftr dn_num i) 1 in
   if truthy u && negb (truthy d) then Some UP_CHAR
   else if negb (truthy u) && truthy d then Some DN_CHAR
        else lookup_char (u + d) SPIN_CHARS)
  = Some (state_glyph up_num dn_num i).
Proof.
  intros Hi. cbv zeta. rewrite !shift_mask_bit by assumption.
  unfold state_glyph.
  destruct (Z.testbit up_num i), (Z.testbit dn_num i); reflexivity.
Qed.

(** [state_label] of two non-negative states never misses a key of
    [SPIN_CHARS]; it shows, site by site, the up arrow where only the up
    state is occupied, the down arrow where only the down state is, the
    double arrow where both are and the empty glyph where neither is, over
    [max(bit lengths, digits)] sites. *)
Theorem state_label_glyphs
        (up_num dn_num digits : Z) (bra ket : bool) (g : globals)
        (Hup : 0 <= up_num) (Hdn : 0 <= dn_num) :
  state_label up_num dn_num (Some digits) bra ket g
  = Some (decorate
            (String.concat ""
               (map (state_glyph up_num dn_num)
                    (range (Z.max (Z.max (Z.log2 up_num + 1)
                                         (Z.log2 dn_num + 1)) digits))))
            bra ket).
Proof.
  unfold state_label. rewrite !bin_body_length by assumption.
  rewrite (traverse_opt_some _ (state_glyph up_num dn_num)); [reflexivity|].
  intros i Hi. apply range_In in Hi. apply state_glyph_site. lia.
Qed.

Lemma state_label_glyphs_witness :
  0 <= 1 /\ 0 <= 3
  /\ state_label 1 3 (Some 2) false true initial_globals
     = Some ("|" ++ UD_CHAR ++ DN_CHAR ++ "⟩")%string.
Proof.
  assert (H1 : 0 <= 1) by lia. assert (H3 : 0 <= 3) by lia.
  split; [exact H1|]. split; [exact H3|].
  exact (@state_label_glyphs 1 3 2 false true initial_globals H1 H3).
Defined.

(** A sector on [N] sites labels a composite state of two states on [N]
    sites with exactly [N] glyphs. *)
Theorem BasisSector_get_label_width
        (self : BasisSector.t) (state : State.t) (bra ket : bool) (g : globals)
        (HN : 1 <= BasisSector.num_sites self)
        (Hup : 0 <= State.up state < 2 ^ BasisSector.num_sites self)
        (Hdn : 0 <= State.dn state < 2 ^ BasisSector.num_sites self) :
  BasisSector.get_label self state bra ket g
  = Some (decorate
            (String.concat ""
               (map (state_glyph (State.up state) (State.dn state))
                    (range (BasisSector.num_sites self))))
            bra ket).
Proof.
  unfold BasisSector.get_label, state_label.
  rewrite !bin_body_length by lia.
  pose proof (log2_succ_le_width HN Hup). pose proof (log2_succ_le_width HN Hdn).
  rewrite Z.max_r by lia.
  rewrite (traverse_opt_some _ (state_glyph (State.up state) (State.dn state)));
    [reflexivity|].
  intros i Hi. apply range_In in Hi. apply state_glyph_site. lia.
Qed.

Lemma BasisSector_get_label_width_witness :
  1 <= 2
  /\ BasisSector.get_label (sector_of 2 1 1) (State.mk 2 1) false false
                           initial_globals
     = Some (DN_CHAR ++ UP_CHAR)%string.
Proof.
  assert (HN : 1 <= BasisSector.num_sites (sector_of 2 1 1)) by (simpl; lia).
  assert (Hup : 0 <= State.up (State.mk 2 1)
                < 2 ^ BasisSector.num_sites (sector_of 2 1 1)) by (simpl; lia).
  assert (Hdn : 0 <= State.dn (State.mk 2 1)
                < 2 ^ BasisSector.num_sites (sector_of 2 1 1)) by (simpl; lia).
  split; [exact HN|].
  exact (@BasisSector_get_label_width (sector_of 2 1 1) (State.mk 2 1)
           false false initial_globals HN Hup Hdn).
Defined.

(** Enumerating for [N] sites rebinds [BITS] to [N]: with the globals left
    by [init_basis(N)], [binstr] without a width renders every enumerated
    state with exactly [N] characters, bit [i] at position [i]. *)
Theorem init_basis_sets_width
        (self b : FockBasis.t) (N s : Z) (g g' : globals)
        (Hrun : FockBasis.init_basis self N g = (g', b, Ok tt))
        (Hin : In s (FockBasis._spinstates b)) :
  BITS g' = N
  /\ binstr s None g'
     = Ok (string_of_list_ascii (map (bit_char s) (range N))).
Proof.
  pose proof (init_basis_ok_inv _ _ _ Hrun) as [HN ->].
  rewrite init_basis_pos in Hrun by assumption. injection Hrun as <-.
  cbn [basis_of FockBasis._spinstates] in Hin. apply range_In in Hin.
  split; [reflexivity|].
  change (binstr s None {| BITS := N |}) with (binstr s (Some N) {| BITS := N |}).
  rewrite binstr_unfold by lia.
  pose proof (log2_succ_le_width HN Hin).
  now rewrite Z.max_l by lia.
Qed.

Lemma init_basis_sets_width_witness :
  FockBasis.init_basis fresh_basis 3 initial_globals
  = ({| BITS := 3 |}, basis_of 3, Ok tt)
  /\ In 1 (FockBasis._spinstates (basis_of 3))
  /\ binstr 1 None {| BITS := 3 |} = Ok "100"%string.
Proof.
  assert (Hrun : FockBasis.init_basis fresh_basis 3 initial_globals
                 = ({| BITS := 3 |}, basis_of 3, Ok tt)) by reflexivity.
  assert (Hin : In 1 (FockBasis._spinstates (basis_of 3)))
    by (right; left; reflexivity).
  split; [exact Hrun|]. split; [exact Hin|].
  exact (proj2 (@init_basis_sets_width fresh_basis (basis_of 3) 3 1
                  initial_globals {| BITS := 3 |} Hrun Hin)).
Defined.
